(** * Mini-CyberArk: a shallow embedding of [main.go]

    The program is a small HTTP vault over one MongoDB collection.
    [createCredential] inserts a username/password document,
    [retrieveCredential] reads a document, answers with its password and
    starts a goroutine that sleeps ten seconds and then overwrites the
    password with a freshly generated one.

    What is modelled, and how:
    - a BSON document is a finite map from field names to BSON values;
    - the collection is the list of its documents in insertion order,
      guarded by the unique index [uniq_username] that [main] creates;
    - the three driver calls the handlers make ([InsertOne], [FindOne],
      [UpdateOne]) are functions on the collection; a transport failure
      of the driver is an explicit input ([fault]);
    - the clock ([time.Now]) and the random source ([rand.Intn]) are
      inputs of each handler call;
    - a sleeping rotation goroutine is an entry of the [pending] list of
      the process; the process state is lost by [Restart], the collection
      is not.

    Each handler performs exactly one driver call, so a concurrent
    execution of handlers and goroutines acts on the collection as some
    sequence of these atomic steps. *)

From stdpp Require Import gmap strings list fin_maps.
From Stdlib Require Import ZArith Ascii String.

#[local] Open Scope string_scope.
#[local] Open Scope list_scope.

(** ** BSON values and documents *)

Module Bson.

(** The BSON types this program stores: strings, UTC datetimes (in
    milliseconds, the resolution of a stored [time.Time]) and object
    identifiers (a 12-byte value read as a number; 0 is the zero
    ObjectID). *)
Inductive bval :=
| BString (s : string)
| BDateTime (t : Z)
| BObjectID (n : N).

#[global] Instance bval_eq_dec : EqDecision bval.
Proof. solve_decision. Defined.

End Bson.
Export Bson.

Abbreviation document := (gmap string bval).

(** ** The [Credential] struct and its BSON encoding *)

Record Credential := mkCredential {
  ID : N;                 (* primitive.ObjectID  `bson:"_id,omitempty" json:"-"` *)
  Username : string;      (* `bson:"username"` *)
  Password : string;      (* `bson:"password"` *)
  LastRotated : Z         (* time.Time `bson:"last_rotated"` *)
}.

(** [bson.Marshal] of a [Credential], as [InsertOne] performs it: one
    field per struct tag; [_id] is left out when it is the zero
    ObjectID ([omitempty]). *)
Definition marshal (c : Credential) : document :=
  let d : document :=
    <["username" := BString (Username c)]>
      (<["password" := BString (Password c)]>
         (<["last_rotated" := BDateTime (LastRotated c)]> ∅)) in
  if N.eqb (ID c) 0 then d else <["_id" := BObjectID (ID c)]> d.

(** Decoding one struct field: an absent key leaves the zero value, a
    value of another BSON type is a decoding error.  This is the
    decoding of the documents this program writes, whose fields have
    the BSON types of [marshal]; the conversions the driver makes
    between types (an ObjectID read into a string field, a string read
    into a time or an ObjectID field) are not modelled, and the zero
    time is written as the instant 0. *)
Definition field_oid (d : document) (k : string) : option N :=
  match d !! k with
  | None => Some 0%N
  | Some (BObjectID n) => Some n
  | Some _ => None
  end.

Definition field_string (d : document) (k : string) : option string :=
  match d !! k with
  | None => Some ""
  | Some (BString s) => Some s
  | Some _ => None
  end.

Definition field_time (d : document) (k : string) : option Z :=
  match d !! k with
  | None => Some 0%Z
  | Some (BDateTime t) => Some t
  | Some _ => None
  end.

(** [SingleResult.Decode(&cred)]: keys without a struct field are
    ignored. *)
Definition decode (d : document) : option Credential :=
  i ← field_oid d "_id";
  u ← field_string d "username";
  p ← field_string d "password";
  t ← field_time d "last_rotated";
  Some (mkCredential i u p t).

(** ** The collection and the driver calls *)

(** The collection [credentials]: its documents in insertion order. *)
Abbreviation collection := (list document).

Inductive mongo_err :=
| ErrNoDocuments
| WriteException (codes : list Z)   (* the codes of its WriteErrors *)
| ErrTransport (msg : string).      (* any other driver error *)

Inductive result (A : Type) :=
| Ok (a : A)
| Err (e : mongo_err).
Arguments Ok {A} a.
Arguments Err {A} e.

(** The filter [bson.M{"username": un}]. *)
Definition matches (un : string) (d : document) : bool :=
  bool_decide (d !! "username" = Some (BString un)).

(** A unique index rejects a document whose indexed field equals that
    of a stored document (an absent field counts as null, and equals
    another absent field).  [_id] carries MongoDB's built-in unique
    index, [username] carries [uniq_username], created by [main]. *)
Definition same_key (k : string) (d d' : document) : bool :=
  bool_decide (d !! k = d' !! k).

Definition violates_unique (c : collection) (d : document) : bool :=
  existsb (fun d' => same_key "_id" d d' || same_key "username" d d') c.

Definition duplicate_key : Z := 11000.

(** The driver adds a generated [_id] to a document that has none;
    [oid] is the ObjectID it generates for this call. *)
Definition ensure_id (oid : N) (d : document) : document :=
  match d !! "_id" with
  | Some _ => d
  | None => <["_id" := BObjectID oid]> d
  end.

Definition InsertOne (c : collection) (d : document) (oid : N)
    (fault : option string) : result document * collection :=
  match fault with
  | Some msg => (Err (ErrTransport msg), c)
  | None =>
      let d' := ensure_id oid d in
      if violates_unique c d'
      then (Err (WriteException [duplicate_key]), c)
      else (Ok d', c ++ [d'])
  end.

(** [FindOne]: the first stored document that matches the filter. *)
Definition FindOne (c : collection) (un : string) (fault : option string)
  : result document :=
  match fault with
  | Some msg => Err (ErrTransport msg)
  | None =>
      match List.find (matches un) c with
      | Some d => Ok d
      | None => Err ErrNoDocuments
      end
  end.

(** The update document
    [{"$set": {"password": npw, "last_rotated": t}}]. *)
Definition set_fields (npw : string) (t : Z) (d : document) : document :=
  <["password" := BString npw]> (<["last_rotated" := BDateTime t]> d).

(** Apply [f] to the first element that satisfies [p]. *)
Fixpoint update_first {A} (p : A -> bool) (f : A -> A) (l : list A) : list A :=
  match l with
  | [] => []
  | x :: l' => if p x then f x :: l' else x :: update_first p f l'
  end.

(** [UpdateOne]: the first matching document is updated; the result is
    the [MatchedCount], which is 0 (and no error) when nothing
    matches. *)
Definition UpdateOne (c : collection) (un : string) (npw : string) (t : Z)
    (fault : option string) : result nat * collection :=
  match fault with
  | Some msg => (Err (ErrTransport msg), c)
  | None =>
      (Ok (if existsb (matches un) c then 1 else 0),
       update_first (matches un) (set_fields npw t) c)
  end.

(** ** Library functions used by the handlers *)

(** [strings.TrimPrefix(s, prefix)]: [s] without the leading [prefix],
    or [s] itself when it does not start with it. *)
Definition TrimPrefix (s p : string) : string :=
  if String.prefix p s
  then String.substring (String.length p) (String.length s - String.length p) s
  else s.

Definition charset : string :=
  "abcdefghijklmnopqrstuvwxyzABCDEFGHIJKLMNOPQRSTUVWXYZ0123456789!@#$%^&*".

Definition password_length : nat := 12.

(** [rand.Intn(n)] at the [i]-th call of a handler: [rnd] is the
    sequence of numbers the generator yields, reduced to [0, n). *)
Definition Intn (rnd : nat -> nat) (i n : nat) : nat := rnd i mod n.

Definition byte_at (s : string) (k : nat) : ascii :=
  match String.get k s with
  | Some a => a
  | None => Ascii.zero
  end.

(** [generateRandomPassword]: twelve bytes, each
    [charset[rand.Intn(len(charset))]]. *)
Definition generateRandomPassword (rnd : nat -> nat) : string :=
  string_of_list_ascii
    (List.map (fun i => byte_at charset (Intn rnd i (String.length charset)))
              (seq 0 password_length)).

(** ** Requests, responses and the inputs of a call *)

(** The JSON body of [/create] after [json.Decode] into a
    [Credential]: the two string fields (an absent key leaves the empty
    string).  [ID] has the tag [json:"-"] and is never read from the
    body; a [last_rotated] of the body is overwritten before the insert
    and is not kept here. *)
Record CreateBody := mkBody {
  b_username : string;
  b_password : string
}.

Record Request := mkRequest {
  Method : string;
  Path : string;               (* r.URL.Path *)
  Body : option CreateBody     (* None: the body is not valid JSON *)
}.

(** A value of a JSON response: a string, or a formatted instant. *)
Inductive jval :=
| JStr (s : string)
| JTime (t : Z).

Inductive Response :=
| HttpError (code : Z) (msg : string)          (* http.Error(w, msg, code) *)
| HttpJson (code : Z) (fields : gmap string jval).

Definition status (r : Response) : Z :=
  match r with
  | HttpError code _ => code
  | HttpJson code _ => code
  end.

Definition StatusOK : Z := 200.
Definition StatusCreated : Z := 201.
Definition StatusBadRequest : Z := 400.
Definition StatusNotFound : Z := 404.
Definition StatusMethodNotAllowed : Z := 405.
Definition StatusConflict : Z := 409.
Definition StatusInternalServerError : Z := 500.

(** What a call takes from outside the program: the clock, the
    ObjectID the driver generates, the random source, and whether the
    driver call fails in transport. *)
Record Env := mkEnv {
  now : Z;
  oid : N;
  rnd : nat -> nat;
  fault : option string
}.

(** [err.Error()]; the text of a write exception, which lists its
    write errors, is not spelled out. *)
Definition Error (e : mongo_err) : string :=
  match e with
  | ErrNoDocuments => "mongo: no documents in result"
  | WriteException _ => "write exception"
  | ErrTransport msg => msg
  end.

(** ** [createCredential] *)

Definition createCredential (c : collection) (r : Request) (e : Env)
  : Response * collection :=
  if negb (String.eqb (Method r) "POST") then
    (HttpError StatusMethodNotAllowed "Only POST allowed", c)
  else
    match Body r with
    | None => (HttpError StatusBadRequest "Invalid JSON", c)
    | Some b =>
        if String.eqb (b_username b) "" || String.eqb (b_password b) "" then
          (HttpError StatusBadRequest "Username and password required", c)
        else
          let cred := mkCredential 0 (b_username b) (b_password b) (now e) in
          match InsertOne c (marshal cred) (oid e) (fault e) with
          | (Err (WriteException codes), c') =>
              if existsb (Z.eqb duplicate_key) codes then
                (HttpError StatusConflict "Username already exists", c')
              else
                (HttpError StatusInternalServerError
                   ("Insert failed: " +:+ Error (WriteException codes)), c')
          | (Err err, c') =>
              (HttpError StatusInternalServerError
                 ("Insert failed: " +:+ Error err), c')
          | (Ok _, c') =>
              (HttpJson StatusCreated
                 (<["username" := JStr (b_username b)]>
                    (<["password" := JStr (b_password b)]>
                       (<["message" := JStr "Credential created successfully"]> ∅))),
               c')
          end
    end.

(** ** [retrieveCredential] and its rotation goroutine *)

(** A goroutine started by [retrieveCredential], asleep until
    [rot_wake]: the closure holds the username and the new password. *)
Record Rotation := mkRotation {
  rot_un : string;
  rot_npw : string;
  rot_wake : Z
}.

(** [10 * time.Second], in milliseconds. *)
Definition rotation_delay : Z := 10000.

(** The handler up to the point where the response is written: the
    response, and the username to rotate when the handler goes on to
    line 167. *)
Definition retrieve_respond (c : collection) (r : Request) (e : Env)
  : Response * option string :=
  let username := TrimPrefix (Path r) "/retrieve/" in
  if String.eqb username "" then
    (HttpError StatusBadRequest "Username is required in path", None)
  else
    match FindOne c username (fault e) with
    | Err ErrNoDocuments =>
        (HttpError StatusNotFound "Credential not found", None)
    | Err _ =>
        (HttpError StatusInternalServerError "Database error", None)
    | Ok d =>
        match decode d with
        | None => (HttpError StatusInternalServerError "Database error", None)
        | Some cred =>
            let currentPassword := Password cred in
            (HttpJson StatusOK
               (<["username" := JStr username]>
                  (<["password" := JStr currentPassword]>
                     (<["retrieved_time" := JTime (now e)]> ∅))),
             Some username)
        end
    end.

(** The process: the collection it talks to and its sleeping rotation
    goroutines, oldest first. *)
Record World := mkWorld {
  coll : collection;
  pending : list Rotation
}.

Definition retrieveCredential (w : World) (r : Request) (e : Env)
  : Response * World :=
  match retrieve_respond (coll w) r e with
  | (resp, None) => (resp, w)
  | (resp, Some un) =>
      let newPassword := generateRandomPassword (rnd e) in
      (resp,
       mkWorld (coll w)
               (pending w ++ [mkRotation un newPassword (now e + rotation_delay)]))
  end.

(** The goroutine after its sleep: one [UpdateOne] filtered by the
    username alone; the driver's result is kept for the log line. *)
Definition rotate (c : collection) (g : Rotation) (e : Env)
  : result nat * collection :=
  UpdateOne c (rot_un g) (rot_npw g) (now e) (fault e).

(** ** Executions *)

Inductive Event :=
| Create (r : Request) (e : Env)      (* a request to /create *)
| Retrieve (r : Request) (e : Env)    (* a request to /retrieve/ *)
| Wake (i : nat) (e : Env)            (* the i-th sleeping goroutine wakes *)
| Restart.                            (* the process dies and is started again *)

Inductive Outcome :=
| Responded (resp : Response)
| Rotated (g : Rotation) (res : result nat)
| Restarted.

(** One atomic step.  [Wake i e] can happen only when the [i]-th
    goroutine exists and has slept its ten seconds. *)
Definition step (w : World) (ev : Event) : option (World * Outcome) :=
  match ev with
  | Create r e =>
      let '(resp, c') := createCredential (coll w) r e in
      Some (mkWorld c' (pending w), Responded resp)
  | Retrieve r e =>
      let '(resp, w') := retrieveCredential w r e in
      Some (w', Responded resp)
  | Wake i e =>
      match pending w !! i with
      | Some g =>
          if (rot_wake g <=? now e)%Z then
            let '(res, c') := rotate (coll w) g e in
            Some (mkWorld c' (delete i (pending w)), Rotated g res)
          else None
      | None => None
      end
  | Restart => Some (mkWorld (coll w) [], Restarted)
  end.

(** A run: the final world and the outcomes, in order. *)
Fixpoint run (w : World) (evs : list Event) : option (World * list Outcome) :=
  match evs with
  | [] => Some (w, [])
  | ev :: evs' =>
      match step w ev with
      | None => None
      | Some (w1, o) =>
          match run w1 evs' with
          | None => None
          | Some (w2, os) => Some (w2, o :: os)
          end
      end
  end.

Definition init : World := mkWorld [] [].

(** ** Observations on a world, used to state the properties *)

(** The password a reader of the collection sees for [un]. *)
Definition stored_password (c : collection) (un : string) : option string :=
  match FindOne c un None with
  | Ok d =>
      match d !! "password" with
      | Some (BString p) => Some p
      | _ => None
      end
  | Err _ => None
  end.

(** Some stored document has the username [un]. *)
Definition present (c : collection) (un : string) : bool :=
  existsb (matches un) c.

(** The shape of the documents this program stores: the four fields of
    [Credential], each of its BSON type, with a non-empty username. *)
Definition wf_doc (d : document) : bool :=
  match d !! "_id", d !! "username", d !! "password", d !! "last_rotated" with
  | Some (BObjectID _), Some (BString u), Some (BString _), Some (BDateTime _) =>
      negb (String.eqb u "")
  | _, _, _, _ => false
  end.

Definition wf_coll (c : collection) : bool := forallb wf_doc c.

(** The field names of a stored credential document. *)
Definition credential_fields : gset string :=
  {[ "_id"; "username"; "password"; "last_rotated" ]}.

(** The stored documents have exactly the fields of a credential. *)
Definition fields_inv (c : collection) : Prop :=
  Forall (fun d : document => dom d = credential_fields) c.

(** The username values of the stored documents, in order. *)
Definition usernames (c : collection) : list (option bval) :=
  List.map (fun d : document => d !! "username") c.

(** An event that is no request: a goroutine waking, or a restart. *)
Definition quiet (ev : Event) : bool :=
  match ev with
  | Wake _ _ | Restart => true
  | Create _ _ | Retrieve _ _ => false
  end.

(** The rotations asleep for one username. *)
Definition pending_for (un : string) (w : World) : list Rotation :=
  List.filter (fun g => String.eqb (rot_un g) un) (pending w).

(** The password write a step commits to the collection, if any: a
    create answered 201 writes the body's password, a rotation whose
    update matched a document writes its generated password. *)
Definition commit_of (ev : Event) (o : Outcome) : option (string * string) :=
  match ev, o with
  | Create r _, Responded resp =>
      match Body r with
      | Some b =>
          if (status resp =? StatusCreated)%Z
          then Some (b_username b, b_password b) else None
      | None => None
      end
  | Wake _ _, Rotated g (Ok n) =>
      if (0 <? n)%nat then Some (rot_un g, rot_npw g) else None
  | _, _ => None
  end.

(** The committed writes of a run, oldest first. *)
Fixpoint commits (evs : list Event) (os : list Outcome) : list (string * string) :=
  match evs, os with
  | ev :: evs', o :: os' =>
      match commit_of ev o with
      | Some cw => cw :: commits evs' os'
      | None => commits evs' os'
      end
  | _, _ => []
  end.

(** The password of the latest write to [un] in a list of writes;
    [before] when there is none. *)
Definition last_write (un : string) (before : option string)
    (ws : list (string * string)) : option string :=
  fold_left (fun acc cw => if String.eqb (fst cw) un then Some (snd cw) else acc)
            ws before.

(** The body of the 200 response of [retrieveCredential]. *)
Definition retrieved (un pw : string) (t : Z) : Response :=
  HttpJson StatusOK
    (<["username" := JStr un]>
       (<["password" := JStr pw]> (<["retrieved_time" := JTime t]> ∅))).

(** The body of the 201 response of [createCredential]. *)
Definition created (un pw : string) : Response :=
  HttpJson StatusCreated
    (<["username" := JStr un]>
       (<["password" := JStr pw]>
          (<["message" := JStr "Credential created successfully"]> ∅))).

(** The observable part of a run: the stored password of [un], the
    sleeping goroutines and the outcomes. *)
Definition observe (un : string) (res : option (World * list Outcome))
  : option (option string * list Rotation * list Outcome) :=
  match res with
  | Some (w, os) => Some (stored_password (coll w) un, pending w, os)
  | None => None
  end.

(** ** Sample inputs *)

Module Sample.

Definition env (t : Z) (i : N) (seed : nat) : Env :=
  mkEnv t i (fun k => k * 7 + seed) None.

Definition create (un pw : string) : Request :=
  mkRequest "POST" "/create" (Some (mkBody un pw)).

Definition get (un : string) : Request :=
  mkRequest "GET" ("/retrieve/" +:+ un) None.

(** The collection after creating alice with "Init@123" at time 0. *)
Definition alice_doc : document :=
  ensure_id 1 (marshal (mkCredential 0 "alice" "Init@123" 0)).

Definition vault : World := mkWorld [alice_doc] [].

(** The rotations of two retrieves, at times 100 and 1000. *)
Definition g1 : Rotation :=
  mkRotation "alice" (generateRandomPassword (rnd (env 100 0 3))) 10100.
Definition g2 : Rotation :=
  mkRotation "alice" (generateRandomPassword (rnd (env 1000 0 5))) 11000.

(** Create alice, retrieve the password twice within ten seconds, let
    both goroutines wake. *)
Definition race : list Event :=
  [ Create (create "alice" "Init@123") (env 0 1 0);
    Retrieve (get "alice") (env 100 0 3);
    Retrieve (get "alice") (env 1000 0 5);
    Wake 0 (env 10100 0 0);
    Wake 0 (env 11000 0 0) ].

(** Create alice, retrieve, restart before the goroutine wakes. *)
Definition crash : list Event :=
  [ Create (create "alice" "Init@123") (env 0 1 0);
    Retrieve (get "alice") (env 100 0 3);
    Restart ].

End Sample.

(** ** [healthCheck] and the start of [main] *)

(** [healthCheck]: the fixed JSON body, with the implicit status 200. *)
Definition healthCheck : Response :=
  HttpJson StatusOK (<["status" := JStr "healthy"]> ∅).

(** [Indexes().CreateOne] for the unique index on [username]: the
    server refuses to build it when two stored documents already share
    the value. *)
Definition CreateUniqueIndex (c : collection) (fault : option string)
  : result unit :=
  match fault with
  | Some msg => Err (ErrTransport msg)
  | None =>
      if bool_decide (NoDup (usernames c)) then Ok tt
      else Err (ErrTransport "E11000 duplicate key error")
  end.

(** The failures [main] can meet before it serves. *)
Record Boot := mkBoot {
  connect_fault : option string;
  ping_fault : option string;
  index_fault : option string
}.

(** [main] up to [ListenAndServe]: connect, ping, create the index.
    Each error ends the process ([log.Fatalf]); otherwise the process
    starts serving on the collection, with no goroutine asleep. *)
Definition main_startup (c : collection) (b : Boot) : option World :=
  match connect_fault b with
  | Some _ => None
  | None =>
      match ping_fault b with
      | Some _ => None
      | None =>
          match CreateUniqueIndex c (index_fault b) with
          | Err _ => None
          | Ok _ => Some (mkWorld c [])
          end
      end
  end.

(** ** Further observations *)

(** Every sleeping rotation is for a stored username. *)
Definition pending_ok (w : World) : bool :=
  forallb (fun g => present (coll w) (rot_un g)) (pending w).

(** The outcome of a rotation that ran its update against no record. *)
Definition missed (o : Outcome) : bool :=
  match o with
  | Rotated _ (Ok 0) => true
  | _ => false
  end.

(** The [last_rotated] a reader of the collection sees for [un]. *)
Definition stored_last_rotated (c : collection) (un : string) : option Z :=
  match FindOne c un None with
  | Ok d =>
      match d !! "last_rotated" with
      | Some (BDateTime t) => Some t
      | _ => None
      end
  | Err _ => None
  end.

Module Sample2.

Definition faulty (t : Z) (msg : string) : Env :=
  mkEnv t 0 (fun k => k) (Some msg).

(** A second credential, stored after alice. *)
Definition bob_doc : document :=
  ensure_id 2 (marshal (mkCredential 0 "bob" "Bob#4567" 5)).

Definition two : collection := [Sample.alice_doc; bob_doc].

Definition boot_ok : Boot := mkBoot None None None.

End Sample2.

(** * Properties *)

(** ** Strings *)

Section Strings.

Lemma prefix_app (p s : string) : String.prefix p (p +:+ s) = true.
Proof.
  induction p as [|a p IH]; simpl.
  - by destruct s.
  - destruct (ascii_dec a a); [exact IH | done].
Qed.

Lemma substring_whole (s : string) :
  String.substring 0 (String.length s) s = s.
Proof. induction s as [|a s IH]; simpl; [done | by rewrite IH]. Qed.

Lemma substring_skip (p s : string) :
  String.substring (String.length p)
    (String.length (p +:+ s) - String.length p) (p +:+ s) = s.
Proof.
  induction p as [|a p IH]; simpl.
  - rewrite Nat.sub_0_r. apply substring_whole.
  - exact IH.
Qed.

Lemma TrimPrefix_app (p s : string) : TrimPrefix (p +:+ s) p = s.
Proof. unfold TrimPrefix. rewrite prefix_app. apply substring_skip. Qed.

Lemma eqb_empty_false (s : string) : s ≠ "" → String.eqb s "" = false.
Proof. intros H. by apply String.eqb_neq. Qed.

End Strings.

(** ** Documents *)

Section Documents.

Implicit Types (d : document) (k un : string).

Lemma set_fields_other npw t d k :
  k ≠ "password" → k ≠ "last_rotated" → set_fields npw t d !! k = d !! k.
Proof.
  intros Hp Hl. unfold set_fields.
  rewrite lookup_insert_ne by done. by rewrite lookup_insert_ne.
Qed.

Lemma set_fields_password npw t d :
  set_fields npw t d !! "password" = Some (BString npw).
Proof. unfold set_fields. apply lookup_insert_eq. Qed.

Lemma set_fields_last_rotated npw t d :
  set_fields npw t d !! "last_rotated" = Some (BDateTime t).
Proof.
  unfold set_fields. rewrite lookup_insert_ne by done. apply lookup_insert_eq.
Qed.

Lemma matches_set_fields un npw t d :
  matches un (set_fields npw t d) = matches un d.
Proof. unfold matches. by rewrite set_fields_other. Qed.

Lemma matches_true un d :
  matches un d = true ↔ d !! "username" = Some (BString un).
Proof. unfold matches. by rewrite bool_decide_eq_true. Qed.

Lemma matches_other un un' d :
  un ≠ un' → matches un d = true → matches un' d = false.
Proof.
  intros Hne Hm. apply matches_true in Hm.
  unfold matches. apply bool_decide_eq_false. rewrite Hm. congruence.
Qed.

(** The document a successful [createCredential] stores. *)
Lemma created_lookup (i : N) un pw (t : Z) :
  let d := ensure_id i (marshal (mkCredential 0 un pw t)) in
  d !! "_id" = Some (BObjectID i) ∧
  d !! "username" = Some (BString un) ∧
  d !! "password" = Some (BString pw) ∧
  d !! "last_rotated" = Some (BDateTime t).
Proof. by cbn. Qed.

Lemma created_unfold (i : N) un pw (t : Z) :
  ensure_id i (marshal (mkCredential 0 un pw t))
  = <["_id" := BObjectID i]>
      (<["username" := BString un]>
         (<["password" := BString pw]>
            (<["last_rotated" := BDateTime t]> ∅))).
Proof. reflexivity. Qed.

Lemma created_matches (i : N) un pw (t : Z) :
  matches un (ensure_id i (marshal (mkCredential 0 un pw t))) = true.
Proof. apply matches_true. apply created_lookup. Qed.

Lemma created_decode (i : N) un pw (t : Z) :
  decode (ensure_id i (marshal (mkCredential 0 un pw t)))
  = Some (mkCredential i un pw t).
Proof. by cbn. Qed.

End Documents.

(** ** The driver calls *)

Section Driver.

Implicit Types (c : collection) (d : document) (un : string).

Lemma existsb_find {A} (p : A → bool) (l : list A) :
  existsb p l = bool_decide (is_Some (List.find p l)).
Proof.
  induction l as [|x l IH]; simpl; [done |].
  destruct (p x); simpl; [done | exact IH].
Qed.

Lemma find_none_forall {A} (p : A → bool) (l : list A) :
  List.find p l = None ↔ Forall (λ x, p x = false) l.
Proof.
  induction l as [|x l IH]; simpl.
  - split; [constructor | done].
  - destruct (p x) eqn:Hx.
    + split; [done | intros H; inversion H; congruence].
    + rewrite IH. split; [by constructor | by inversion 1].
Qed.

Lemma find_app_none {A} (p : A → bool) (l l' : list A) :
  List.find p l = None → List.find p (l ++ l') = List.find p l'.
Proof.
  induction l as [|x l IH]; simpl; [done |].
  destruct (p x); [done | exact IH].
Qed.

Lemma find_app_some {A} (p : A → bool) (l l' : list A) x :
  List.find p l = Some x → List.find p (l ++ l') = Some x.
Proof.
  induction l as [|y l IH]; simpl; [done |].
  destruct (p y); [done | exact IH].
Qed.

(** Updating the first match of [p] with an [f] that keeps [q]:
    the first match of [q] is the updated element when [q] is [p]. *)
Lemma find_update_first_same {A} (p : A → bool) (f : A → A) (l : list A) :
  (∀ x, p (f x) = p x) →
  List.find p (update_first p f l) = f <$> List.find p l.
Proof.
  intros Hf. induction l as [|x l IH]; simpl; [done |].
  destruct (p x) eqn:Hx; simpl.
  - by rewrite Hf, Hx.
  - by rewrite Hx.
Qed.

(** ... and is untouched when [q] excludes what [p] selects. *)
Lemma find_update_first_other {A} (p q : A → bool) (f : A → A) (l : list A) :
  (∀ x, q (f x) = q x) →
  (∀ x, p x = true → q x = false) →
  List.find q (update_first p f l) = List.find q l.
Proof.
  intros Hf Hpq. induction l as [|x l IH]; simpl; [done |].
  destruct (p x) eqn:Hx; simpl.
  - by rewrite Hf, (Hpq x Hx).
  - by rewrite IH.
Qed.

Lemma update_first_none {A} (p : A → bool) (f : A → A) (l : list A) :
  List.find p l = None → update_first p f l = l.
Proof.
  induction l as [|x l IH]; simpl; [done |].
  destruct (p x); [done |]. intros H. by rewrite IH.
Qed.

Lemma update_first_length {A} (p : A → bool) (f : A → A) (l : list A) :
  List.length (update_first p f l) = List.length l.
Proof.
  induction l as [|x l IH]; simpl; [done |].
  destruct (p x); simpl; by rewrite ?IH.
Qed.

(** Every position holds the old element or its image under [f]. *)
Lemma update_first_lookup {A} (p : A → bool) (f : A → A) (l : list A) i x :
  l !! i = Some x →
  update_first p f l !! i = Some x ∨
  (p x = true ∧ update_first p f l !! i = Some (f x)).
Proof.
  revert i. induction l as [|y l IH]; intros i Hi; [done |].
  simpl. destruct (p y) eqn:Hy.
  - destruct i as [|i]; simpl in *; [| by left].
    inversion Hi; subst. by right.
  - destruct i as [|i]; simpl in *; [by left | by apply IH].
Qed.

Lemma FindOne_ok c un d :
  FindOne c un None = Ok d → d ∈ c ∧ d !! "username" = Some (BString un).
Proof.
  unfold FindOne. destruct (List.find _ c) as [d'|] eqn:Hf; [| done].
  intros [= <-]. apply find_some in Hf as [Hin Hm].
  split; [by apply list_elem_of_In | by apply matches_true].
Qed.

Lemma FindOne_present c un :
  (∃ d, d ∈ c ∧ d !! "username" = Some (BString un)) →
  ∃ d, FindOne c un None = Ok d.
Proof.
  intros (d & Hin & Hu). unfold FindOne.
  destruct (List.find _ c) as [d'|] eqn:Hf; [by eexists |].
  apply find_none_forall in Hf. rewrite Forall_forall in Hf.
  apply Hf in Hin. apply matches_true in Hu. congruence.
Qed.

Lemma FindOne_absent c un :
  (∀ d, d ∈ c → d !! "username" ≠ Some (BString un)) →
  FindOne c un None = Err ErrNoDocuments.
Proof.
  intros Habs. unfold FindOne.
  destruct (List.find _ c) as [d|] eqn:Hf; [| done].
  apply find_some in Hf as [Hin Hm].
  apply list_elem_of_In in Hin. apply matches_true in Hm.
  by destruct (Habs d Hin).
Qed.

End Driver.

(** ** The handlers *)

Section Handlers.

Implicit Types (c : collection) (w : World) (un pw : string) (e : Env).

Lemma present_true c un :
  present c un = true ↔ ∃ d, d ∈ c ∧ d !! "username" = Some (BString un).
Proof.
  unfold present. rewrite existsb_exists. split.
  - intros (d & Hin & Hm). exists d.
    split; [by apply list_elem_of_In | by apply matches_true].
  - intros (d & Hin & Hu). exists d.
    split; [by apply list_elem_of_In | by apply matches_true].
Qed.

Lemma present_false c un :
  present c un = false ↔ List.find (matches un) c = None.
Proof.
  unfold present. rewrite existsb_find.
  by destruct (List.find _ c).
Qed.

(** The unique index rejects a document whose username is stored. *)
Lemma violates_unique_present c d un :
  d !! "username" = Some (BString un) →
  present c un = true → violates_unique c d = true.
Proof.
  intros Hd Hp. apply present_true in Hp as (d' & Hin & Hu).
  unfold violates_unique. apply existsb_exists. exists d'.
  split; [by apply list_elem_of_In |].
  apply orb_true_iff. right. unfold same_key.
  apply bool_decide_eq_true. congruence.
Qed.

(** ... and admits a document only if its username is not stored. *)
Lemma violates_unique_absent c d un :
  d !! "username" = Some (BString un) →
  violates_unique c d = false → List.find (matches un) c = None.
Proof.
  intros Hd Hv. apply find_none_forall. apply Forall_forall.
  intros d' Hin. unfold violates_unique in Hv.
  destruct (matches un d') eqn:Hm; [| done].
  apply matches_true in Hm.
  assert (existsb (λ d'0, same_key "_id" d d'0 || same_key "username" d d'0) c
          = true) as Hex; [| congruence].
  apply existsb_exists. exists d'. split; [by apply list_elem_of_In |].
  apply orb_true_iff. right. apply bool_decide_eq_true. congruence.
Qed.

(** What a 201 of [createCredential] tells: the request was a
    well-formed POST and the collection gained exactly the marshalled
    credential, whose username was not stored before. *)
Lemma create_success c r e resp c' :
  createCredential c r e = (resp, c') →
  status resp = StatusCreated →
  ∃ b, Body r = Some b ∧ b_username b ≠ "" ∧ b_password b ≠ "" ∧
    List.find (matches (b_username b)) c = None ∧
    c' = c ++ [ensure_id (oid e)
                 (marshal (mkCredential 0 (b_username b) (b_password b) (now e)))].
Proof.
  unfold createCredential.
  destruct (negb _); [by intros [= <- <-] |].
  destruct (Body r) as [b|]; [| by intros [= <- <-]].
  destruct (String.eqb (b_username b) "" || String.eqb (b_password b) "")
    eqn:Hempty; [by intros [= <- <-] |].
  apply orb_false_iff in Hempty as [Hu Hp].
  apply String.eqb_neq in Hu, Hp.
  unfold InsertOne. destruct (fault e); [by intros [= <- <-] |].
  destruct (violates_unique c _) eqn:Hv; [by intros [= <- <-] |].
  intros [= <- <-] _. exists b. repeat split; try done.
  eapply violates_unique_absent; [| exact Hv].
  apply created_lookup.
Qed.

Lemma create_not_created c r e resp c' :
  createCredential c r e = (resp, c') →
  status resp ≠ StatusCreated → c' = c.
Proof.
  unfold createCredential.
  destruct (negb _); [by intros [= <- <-] |].
  destruct (Body r) as [b|]; [| by intros [= <- <-]].
  destruct (_ || _); [by intros [= <- <-] |].
  unfold InsertOne. destruct (fault e); [by intros [= <- <-] |].
  destruct (violates_unique c _); [by intros [= <- <-] |].
  by intros [= <- <-].
Qed.

Lemma retrieve_respond_found c un m bd e d cred :
  un ≠ "" → FindOne c un (fault e) = Ok d → decode d = Some cred →
  retrieve_respond c (mkRequest m ("/retrieve/" +:+ un) bd) e
  = (retrieved un (Password cred) (now e), Some un).
Proof.
  intros Hne Hf Hd. unfold retrieve_respond. simpl Path.
  rewrite TrimPrefix_app, (eqb_empty_false _ Hne), Hf, Hd. done.
Qed.

End Handlers.

(** ** Creating and retrieving *)

Section CreateRetrieve.

Implicit Types (c : collection) (w : World) (un pw : string) (e : Env).

(** C7. Creating a credential whose username is already stored fails
    with the duplicate-key error of the unique index, answered as 409
    "Username already exists".  The handler makes no lookup of its
    own: the rejection is the result of [InsertOne] itself.  The
    collection, and with it the record stored first, is unchanged. *)
Theorem create_taken_username w r b e :
  Method r = "POST" → Body r = Some b →
  b_username b ≠ "" → b_password b ≠ "" →
  fault e = None →
  present (coll w) (b_username b) = true →
  InsertOne (coll w)
    (marshal (mkCredential 0 (b_username b) (b_password b) (now e)))
    (oid e) (fault e)
  = (Err (WriteException [duplicate_key]), coll w) ∧
  createCredential (coll w) r e
  = (HttpError StatusConflict "Username already exists", coll w) ∧
  step w (Create r e)
  = Some (w, Responded (HttpError StatusConflict "Username already exists")).
Proof.
  intros Hm Hb Hu Hp Hf Hpres.
  assert (InsertOne (coll w)
            (marshal (mkCredential 0 (b_username b) (b_password b) (now e)))
            (oid e) (fault e)
          = (Err (WriteException [duplicate_key]), coll w)) as Hins.
  { unfold InsertOne. rewrite Hf.
    rewrite (violates_unique_present _ _ (b_username b)); [done | | done].
    apply created_lookup. }
  assert (createCredential (coll w) r e
          = (HttpError StatusConflict "Username already exists", coll w))
    as Hcreate.
  { unfold createCredential. rewrite Hm, Hb. simpl negb. cbv iota.
    rewrite (eqb_empty_false _ Hu), (eqb_empty_false _ Hp). simpl orb.
    cbv iota. by rewrite Hins. }
  repeat split; [exact Hins | exact Hcreate |].
  unfold step. rewrite Hcreate. by destruct w.
Qed.

Lemma create_taken_username_witness :
  present (coll Sample.vault) "alice" = true ∧
  step Sample.vault
    (Create (Sample.create "alice" "Other#456") (Sample.env 50 2 0))
  = Some (Sample.vault,
          Responded (HttpError StatusConflict "Username already exists")).
Proof.
  split; [reflexivity |].
  apply (create_taken_username Sample.vault
           (Sample.create "alice" "Other#456")
           (mkBody "alice" "Other#456") (Sample.env 50 2 0));
    try reflexivity; discriminate.
Defined.

(** C8. Retrieving a username that no stored document carries is
    answered 404 "Credential not found", and the world is unchanged:
    no rotation goroutine is started. *)
Theorem retrieve_absent_username w un m bd e :
  un ≠ "" → fault e = None → present (coll w) un = false →
  retrieveCredential w (mkRequest m ("/retrieve/" +:+ un) bd) e
  = (HttpError StatusNotFound "Credential not found", w).
Proof.
  intros Hne Hf Habs. apply present_false in Habs.
  unfold retrieveCredential, retrieve_respond. simpl Path.
  rewrite TrimPrefix_app, (eqb_empty_false _ Hne).
  unfold FindOne. by rewrite Hf, Habs.
Qed.

Lemma retrieve_absent_username_witness :
  present (coll Sample.vault) "bob" = false ∧
  retrieveCredential Sample.vault (Sample.get "bob") (Sample.env 50 0 0)
  = (HttpError StatusNotFound "Credential not found", Sample.vault).
Proof.
  split; [reflexivity |].
  apply (retrieve_absent_username Sample.vault "bob" "GET" None
           (Sample.env 50 0 0)); [discriminate | reflexivity | reflexivity].
Defined.

(** C9. Round trip: when [createCredential] answers 201 for a
    username and password, a [retrieveCredential] of that username
    on the resulting collection answers 200 with exactly that
    password (whatever goroutines are asleep). *)
Theorem create_then_retrieve c r b e resp c' pend m bd e' :
  Body r = Some b →
  createCredential c r e = (resp, c') →
  status resp = StatusCreated →
  fault e' = None →
  fst (retrieveCredential (mkWorld c' pend)
         (mkRequest m ("/retrieve/" +:+ b_username b) bd) e')
  = retrieved (b_username b) (b_password b) (now e').
Proof.
  intros Hb Hc Hs Hf.
  destruct (create_success _ _ _ _ _ Hc Hs) as (b' & Hb' & Hu & Hp & Hnone & ->).
  assert (b' = b) as -> by congruence.
  unfold retrieveCredential. simpl coll.
  rewrite (retrieve_respond_found _ _ _ _ _
             (ensure_id (oid e)
                (marshal (mkCredential 0 (b_username b) (b_password b) (now e))))
             (mkCredential (oid e) (b_username b) (b_password b) (now e)));
    [done | done | | apply created_decode].
  rewrite Hf. unfold FindOne.
  rewrite (find_app_none _ _ _ Hnone). simpl.
  by rewrite created_matches.
Qed.

Lemma create_then_retrieve_witness :
  fst (retrieveCredential
         (mkWorld (snd (createCredential [] (Sample.create "alice" "Init@123")
                          (Sample.env 0 1 0))) [])
         (Sample.get "alice") (Sample.env 100 0 3))
  = retrieved "alice" "Init@123" 100.
Proof.
  apply (create_then_retrieve [] (Sample.create "alice" "Init@123")
           (mkBody "alice" "Init@123") (Sample.env 0 1 0)
           (fst (createCredential [] (Sample.create "alice" "Init@123")
                   (Sample.env 0 1 0))));
    reflexivity.
Defined.

End CreateRetrieve.

(** ** The rotation goroutine *)

Section RotationUpdate.

Implicit Types (c : collection) (w : World) (un : string) (e : Env)
  (g : Rotation).

Lemma rotate_no_fault c g e :
  fault e = None →
  rotate c g e
  = (Ok (if present c (rot_un g) then 1 else 0),
     update_first (matches (rot_un g))
       (set_fields (rot_npw g) (now e)) c).
Proof. intros Hf. unfold rotate, UpdateOne. by rewrite Hf. Qed.

Lemma rotate_fault c g e msg :
  fault e = Some msg → rotate c g e = (Err (ErrTransport msg), c).
Proof. intros Hf. unfold rotate, UpdateOne. by rewrite Hf. Qed.

Lemma rotate_absent c g e :
  present c (rot_un g) = false → snd (rotate c g e) = c.
Proof.
  intros Habs. unfold rotate, UpdateOne. destruct (fault e); [done |].
  simpl. apply update_first_none. by apply present_false.
Qed.

Lemma rotate_length c g e :
  List.length (snd (rotate c g e)) = List.length c.
Proof.
  unfold rotate, UpdateOne. destruct (fault e); [done |].
  apply update_first_length.
Qed.

(** Position by position, a rotation leaves every field other than
    [password] and [last_rotated] as it was. *)
Lemma rotate_lookup c g e i d :
  c !! i = Some d →
  ∃ d', snd (rotate c g e) !! i = Some d' ∧
    ∀ k, k ≠ "password" → k ≠ "last_rotated" → d' !! k = d !! k.
Proof.
  intros Hi. unfold rotate, UpdateOne.
  destruct (fault e); simpl; [by exists d |].
  destruct (update_first_lookup (matches (rot_un g))
              (set_fields (rot_npw g) (now e)) c i d Hi) as [H | [_ H]].
  - by exists d.
  - eexists. split; [exact H |]. intros k Hp Hl. by apply set_fields_other.
Qed.

Lemma stored_password_rotate_same c g e :
  fault e = None → present c (rot_un g) = true →
  stored_password (snd (rotate c g e)) (rot_un g) = Some (rot_npw g).
Proof.
  intros Hf Hp. rewrite (rotate_no_fault _ _ _ Hf). simpl.
  unfold stored_password, FindOne.
  rewrite find_update_first_same by (intros; apply matches_set_fields).
  unfold present in Hp. rewrite existsb_find in Hp.
  apply bool_decide_eq_true in Hp as [d Hd]. rewrite Hd. simpl.
  by rewrite set_fields_password.
Qed.

Lemma stored_password_rotate_other c g e un :
  un ≠ rot_un g →
  stored_password (snd (rotate c g e)) un = stored_password c un.
Proof.
  intros Hne. unfold rotate, UpdateOne. destruct (fault e); [done |].
  simpl. unfold stored_password, FindOne.
  rewrite find_update_first_other; [done | |].
  - intros; apply matches_set_fields.
  - intros x Hx. by apply (matches_other (rot_un g)).
Qed.

(** C10. The update of a rotation changes nothing but [password] and
    [last_rotated]: the collection keeps its length, and the document
    at each position keeps its [username], its [_id] and every other
    field. *)
Theorem rotation_frame c g e i d :
  c !! i = Some d →
  List.length (snd (rotate c g e)) = List.length c ∧
  ∃ d', snd (rotate c g e) !! i = Some d' ∧
    d' !! "username" = d !! "username" ∧
    d' !! "_id" = d !! "_id" ∧
    ∀ k, k ≠ "password" → k ≠ "last_rotated" → d' !! k = d !! k.
Proof.
  intros Hi. split; [apply rotate_length |].
  destruct (rotate_lookup c g e i d Hi) as (d' & Hd' & Hframe).
  exists d'. repeat split; [exact Hd' | by apply Hframe.. | exact Hframe].
Qed.

Lemma rotation_frame_witness :
  coll Sample.vault !! 0%nat = Some Sample.alice_doc ∧
  ∃ d', snd (rotate (coll Sample.vault) Sample.g1 (Sample.env 10100 0 0))
          !! 0%nat = Some d' ∧
    d' !! "username" = Sample.alice_doc !! "username" ∧
    d' !! "_id" = Sample.alice_doc !! "_id" ∧
    ∀ k, k ≠ "password" → k ≠ "last_rotated" →
         d' !! k = Sample.alice_doc !! k.
Proof.
  split; [reflexivity |].
  apply (rotation_frame (coll Sample.vault) Sample.g1
           (Sample.env 10100 0 0) 0%nat Sample.alice_doc).
  reflexivity.
Defined.

End RotationUpdate.

(** ** The shape of the stored documents is an invariant *)

Section WellFormed.

Implicit Types (c : collection) (w : World) (d : document) (un : string)
  (e : Env).

Lemma wf_doc_created (i : N) un pw (t : Z) :
  un ≠ "" → wf_doc (ensure_id i (marshal (mkCredential 0 un pw t))) = true.
Proof.
  intros Hne. unfold wf_doc.
  destruct (created_lookup i un pw t) as (-> & -> & -> & ->).
  by rewrite (eqb_empty_false _ Hne).
Qed.

Lemma wf_doc_set_fields npw t d :
  wf_doc d = true → wf_doc (set_fields npw t d) = true.
Proof.
  unfold wf_doc.
  rewrite set_fields_password, set_fields_last_rotated.
  rewrite !set_fields_other by done.
  destruct (d !! "_id") as [[]|]; try done.
  destruct (d !! "username") as [[]|]; try done.
  destruct (d !! "password") as [[]|]; try done.
  by destruct (d !! "last_rotated") as [[]|].
Qed.

(** A well-formed document decodes, to the fields it holds. *)
Lemma wf_doc_decode d :
  wf_doc d = true →
  ∃ i u p t, u ≠ "" ∧ d !! "username" = Some (BString u) ∧
    d !! "password" = Some (BString p) ∧
    decode d = Some (mkCredential i u p t).
Proof.
  unfold wf_doc, decode, field_oid, field_string, field_time.
  destruct (d !! "_id") as [[| |i]|]; try done.
  destruct (d !! "username") as [[u| |]|]; try done.
  destruct (d !! "password") as [[p| |]|]; try done.
  destruct (d !! "last_rotated") as [[|t|]|]; try done.
  intros Hne. exists i, u, p, t. repeat split.
  apply String.eqb_neq. by apply negb_true_iff.
Qed.

Lemma wf_coll_forall c : wf_coll c = true ↔ ∀ d, d ∈ c → wf_doc d = true.
Proof.
  unfold wf_coll. rewrite forallb_forall.
  split; intros H d Hd; apply H; by apply list_elem_of_In.
Qed.

Lemma wf_coll_update_first c (p : document → bool) npw t :
  wf_coll c = true → wf_coll (update_first p (set_fields npw t) c) = true.
Proof.
  unfold wf_coll. induction c as [|d c IH]; simpl; [done |].
  intros [Hd Hc]%andb_true_iff. destruct (p d); simpl.
  - by rewrite wf_doc_set_fields.
  - by rewrite Hd, IH.
Qed.

Lemma wf_coll_create c r e :
  wf_coll c = true → wf_coll (snd (createCredential c r e)) = true.
Proof.
  intros Hwf.
  destruct (createCredential c r e) as [resp c'] eqn:Hc. simpl.
  revert Hc. unfold createCredential.
  destruct (negb _); [by intros [= <- <-] |].
  destruct (Body r) as [b|]; [| by intros [= <- <-]].
  destruct (String.eqb (b_username b) "" || String.eqb (b_password b) "")
    eqn:Hempty; [by intros [= <- <-] |].
  apply orb_false_iff in Hempty as [Hu _]. apply String.eqb_neq in Hu.
  unfold InsertOne. destruct (fault e); [by intros [= <- <-] |].
  destruct (violates_unique c _); [by intros [= <- <-] |].
  intros [= <- <-]. unfold wf_coll. rewrite forallb_app. simpl.
  by rewrite wf_doc_created, andb_true_r.
Qed.

Lemma wf_coll_rotate c g e :
  wf_coll c = true → wf_coll (snd (rotate c g e)) = true.
Proof.
  intros Hwf. unfold rotate, UpdateOne. destruct (fault e); [done |].
  by apply wf_coll_update_first.
Qed.

Lemma retrieve_coll w r e : coll (snd (retrieveCredential w r e)) = coll w.
Proof.
  unfold retrieveCredential.
  by destruct (retrieve_respond (coll w) r e) as [resp [un|]].
Qed.

Lemma wf_coll_step w ev w' o :
  wf_coll (coll w) = true → step w ev = Some (w', o) →
  wf_coll (coll w') = true.
Proof.
  intros Hwf. destruct ev as [r e | r e | i e |]; simpl.
  - pose proof (wf_coll_create _ r e Hwf) as H.
    destruct (createCredential (coll w) r e). by intros [= <- <-].
  - pose proof (retrieve_coll w r e) as H.
    destruct (retrieveCredential w r e). intros [= <- <-].
    simpl in H. by rewrite H.
  - destruct (pending w !! i) as [g|]; [| done].
    destruct (rot_wake g <=? now e)%Z; [| done].
    pose proof (wf_coll_rotate _ g e Hwf) as H.
    destruct (rotate (coll w) g e). by intros [= <- <-].
  - by intros [= <- <-].
Qed.

(** Every collection the program builds from the empty one holds
    well-formed documents only. *)
Lemma wf_coll_run evs : ∀ w w' os,
  wf_coll (coll w) = true → run w evs = Some (w', os) →
  wf_coll (coll w') = true.
Proof.
  induction evs as [|ev evs IH]; intros w w' os Hwf; simpl.
  - by intros [= <- <-].
  - destruct (step w ev) as [[w1 o]|] eqn:Hs; [| done].
    destruct (run w1 evs) as [[w2 os']|] eqn:Hr; [| done].
    intros [= <- <-]. eapply IH; [| exact Hr].
    eapply wf_coll_step; [exact Hwf | exact Hs].
Qed.

Lemma wf_coll_init : wf_coll (coll init) = true.
Proof. reflexivity. Qed.

(** The unique index at work: no two stored documents share a
    username, in any state reached from a collection without
    duplicates. *)
Lemma usernames_update_first c (p : document → bool) npw t :
  usernames (update_first p (set_fields npw t) c) = usernames c.
Proof.
  unfold usernames. induction c as [|d c IH]; simpl; [done |].
  destruct (p d); simpl; [| by rewrite IH].
  by rewrite set_fields_other.
Qed.

Lemma unique_usernames_step w ev w' o :
  NoDup (usernames (coll w)) → step w ev = Some (w', o) →
  NoDup (usernames (coll w')).
Proof.
  intros Hnd. destruct ev as [r e | r e | i e |]; simpl.
  - destruct (createCredential (coll w) r e) as [resp c'] eqn:Hc.
    intros [= <- <-]. simpl.
    destruct (Z.eq_dec (status resp) StatusCreated) as [Hs | Hs];
      [| by rewrite (create_not_created _ _ _ _ _ Hc Hs)].
    destruct (create_success _ _ _ _ _ Hc Hs) as (b & _ & _ & _ & Hnone & ->).
    unfold usernames. rewrite map_app. simpl.
    apply NoDup_app. split; [exact Hnd |]. split; [| apply NoDup_singleton].
    intros x Hx Hx'. apply list_elem_of_singleton in Hx' as ->.
    apply list_elem_of_In, in_map_iff in Hx as (d & Hd & Hin).
    apply find_none_forall in Hnone. rewrite Forall_forall in Hnone.
    apply list_elem_of_In, Hnone in Hin.
    destruct (created_lookup (oid e) (b_username b) (b_password b) (now e))
      as (_ & Hu & _).
    rewrite Hu in Hd. apply matches_true in Hd. congruence.
  - pose proof (retrieve_coll w r e) as H.
    destruct (retrieveCredential w r e). intros [= <- <-].
    simpl in H. by rewrite H.
  - destruct (pending w !! i) as [g|]; [| done].
    destruct (rot_wake g <=? now e)%Z; [| done].
    unfold rotate, UpdateOne. destruct (fault e); [by intros [= <- <-] |].
    intros [= <- <-]. simpl. by rewrite usernames_update_first.
  - by intros [= <- <-].
Qed.

Lemma unique_usernames_run evs : ∀ w w' os,
  NoDup (usernames (coll w)) → run w evs = Some (w', os) →
  NoDup (usernames (coll w')).
Proof.
  induction evs as [|ev evs IH]; intros w w' os Hnd; simpl.
  - by intros [= <- <-].
  - destruct (step w ev) as [[w1 o]|] eqn:Hs; [| done].
    destruct (run w1 evs) as [[w2 os']|] eqn:Hr; [| done].
    intros [= <- <-]. eapply IH; [| exact Hr].
    eapply unique_usernames_step; [exact Hnd | exact Hs].
Qed.

End WellFormed.

(** ** What a retrieval answers *)

Section Retrieval.

Implicit Types (c : collection) (w : World) (un : string) (e : Env).

(** The document [FindOne] returns, told without [FindOne]: the first
    stored document, in insertion order, with the username. *)
Lemma FindOne_first c un d :
  FindOne c un None = Ok d →
  ∃ i, c !! i = Some d ∧ d !! "username" = Some (BString un) ∧
    ∀ j d', (j < i)%nat → c !! j = Some d' →
            d' !! "username" ≠ Some (BString un).
Proof.
  unfold FindOne. induction c as [|d0 c IH]; simpl; [done |].
  destruct (matches un d0) eqn:Hm.
  - intros [= <-]. exists 0%nat. split; [done |].
    split; [by apply matches_true | intros j d' Hj; lia].
  - intros Hf. destruct (IH Hf) as (i & Hi & Hu & Hbefore).
    exists (S i). split; [done |]. split; [done |].
    intros [|j] d' Hj; simpl.
    + intros [= <-] Hu'. apply matches_true in Hu'. congruence.
    + apply Hbefore. lia.
Qed.

Lemma FindOne_unique c un d :
  NoDup (usernames c) → d ∈ c → d !! "username" = Some (BString un) →
  FindOne c un None = Ok d.
Proof.
  unfold FindOne. induction c as [|d0 c IH]; simpl.
  - intros _ Hin. by apply elem_of_nil in Hin.
  - intros [Hnotin Hnd]%NoDup_cons Hin Hu.
    apply elem_of_cons in Hin as [-> | Hin].
    + by rewrite (proj2 (matches_true un d0) Hu).
    + destruct (matches un d0) eqn:Hm; [| by apply IH].
      apply matches_true in Hm. destruct Hnotin.
      rewrite Hm, <- Hu. unfold usernames.
      apply list_elem_of_In, in_map_iff. exists d.
      split; [done | by apply list_elem_of_In].
Qed.

(** The single read of the handler on a well-formed collection. *)
Lemma read_present c un :
  wf_coll c = true → present c un = true →
  ∃ d cred, FindOne c un None = Ok d ∧ decode d = Some cred ∧
    un ≠ "" ∧ stored_password c un = Some (Password cred).
Proof.
  intros Hwf Hp. apply present_true in Hp.
  destruct (FindOne_present _ _ Hp) as [d Hd].
  destruct (FindOne_ok _ _ _ Hd) as [Hin Hu].
  rewrite wf_coll_forall in Hwf.
  destruct (wf_doc_decode d (Hwf d Hin)) as (i & u & p & t & Hne & Hu' & Hpw & Hdec).
  assert (u = un) as -> by congruence.
  exists d, (mkCredential i un p t). repeat split; try done.
  unfold stored_password. by rewrite Hd, Hpw.
Qed.

(** C6. For a username present in the store, [retrieveCredential]
    answers 200 with the password of the record of that username: the
    first stored document, in insertion order, that carries the
    username, which under the unique index is the only one.  The
    answer is given in the same step as the call (the time it reports
    is the time of the call), when the rotation the call starts is
    still asleep and the collection is as it was.  The answer is fixed
    by the read alone, at the point where the handler writes it,
    before the goroutine is started: it is the same whatever
    goroutines are asleep and whatever password is generated for the
    rotation. *)
Theorem retrieve_returns_captured_password w un m bd e :
  wf_coll (coll w) = true → present (coll w) un = true → fault e = None →
  ∃ i d pw,
    coll w !! i = Some d ∧
    d !! "username" = Some (BString un) ∧
    d !! "password" = Some (BString pw) ∧
    (∀ j d', (j < i)%nat → coll w !! j = Some d' →
             d' !! "username" ≠ Some (BString un)) ∧
    (NoDup (usernames (coll w)) →
     ∀ d', d' ∈ coll w → d' !! "username" = Some (BString un) → d' = d) ∧
    stored_password (coll w) un = Some pw ∧
    let r := mkRequest m ("/retrieve/" +:+ un) bd in
    let w' := mkWorld (coll w)
                (pending w ++ [mkRotation un (generateRandomPassword (rnd e))
                                 (now e + rotation_delay)]) in
    fst (retrieve_respond (coll w) r e) = retrieved un pw (now e) ∧
    retrieveCredential w r e = (retrieved un pw (now e), w') ∧
    step w (Retrieve r e) = Some (w', Responded (retrieved un pw (now e))) ∧
    step w' (Wake (List.length (pending w)) e) = None ∧
    ∀ w2 e2, coll w2 = coll w → now e2 = now e → fault e2 = None →
      fst (retrieveCredential w2 r e2) = retrieved un pw (now e).
Proof.
  intros Hwf Hp Hf.
  destruct (read_present _ _ Hwf Hp) as (d & cred & Hd & Hdec & Hne & Hsp).
  destruct (FindOne_first _ _ _ Hd) as (i & Hi & Hu & Hbefore).
  assert (d !! "password" = Some (BString (Password cred))) as Hpw.
  { revert Hsp. unfold stored_password. rewrite Hd.
    destruct (d !! "password") as [[p| |]|]; try done. by intros [= ->]. }
  exists i, d, (Password cred).
  split; [exact Hi |]. split; [exact Hu |]. split; [exact Hpw |].
  split; [exact Hbefore |]. split.
  { intros Hnd d' Hin Hu'.
    pose proof (FindOne_unique _ _ _ Hnd Hin Hu') as Hd'. congruence. }
  split; [exact Hsp |]. simpl.
  assert (∀ c2 e2, c2 = coll w → fault e2 = None →
            retrieve_respond c2 (mkRequest m ("/retrieve/" +:+ un) bd) e2
            = (retrieved un (Password cred) (now e2), Some un)) as Hresp.
  { intros c2 e2 -> Hf2.
    apply (retrieve_respond_found _ _ _ _ _ d); [done | by rewrite Hf2 | done]. }
  assert (retrieveCredential w (mkRequest m ("/retrieve/" +:+ un) bd) e
          = (retrieved un (Password cred) (now e),
             mkWorld (coll w)
               (pending w ++ [mkRotation un (generateRandomPassword (rnd e))
                                (now e + rotation_delay)]))) as Hr.
  { unfold retrieveCredential. by rewrite Hresp. }
  repeat split.
  - by rewrite Hresp.
  - exact Hr.
  - unfold step. by rewrite Hr.
  - unfold step. simpl pending. rewrite list_lookup_middle by done.
    simpl rot_wake. unfold rotation_delay.
    assert ((now e + 10000 <=? now e)%Z = false) as -> by (apply Z.leb_gt; lia).
    done.
  - intros w2 e2 Hc Ht Hf2. unfold retrieveCredential.
    rewrite (Hresp _ _ Hc Hf2). simpl. by rewrite Ht.
Qed.

Lemma retrieve_returns_captured_password_witness :
  wf_coll Sample2.two = true ∧
  present Sample2.two "bob" = true ∧
  fst (retrieveCredential (mkWorld Sample2.two [Sample.g1])
         (Sample.get "bob") (Sample.env 200 0 4))
  = retrieved "bob" "Bob#4567" 200.
Proof.
  split; [reflexivity |]. split; [reflexivity |].
  destruct (retrieve_returns_captured_password
              (mkWorld Sample2.two [Sample.g1]) "bob" "GET" None
              (Sample.env 200 0 4) eq_refl eq_refl eq_refl)
    as (i & d & pw & Hi & Hu & Hpw & _ & _ & _ & _ & Hr & _).
  unfold Sample.get. rewrite Hr. simpl fst.
  destruct i as [|[|i]]; simpl in Hi; [| | done].
  - injection Hi as <-. vm_compute in Hu. discriminate.
  - injection Hi as <-. vm_compute in Hpw. by injection Hpw as <-.
Defined.

End Retrieval.

(** ** The stored password is the latest committed write *)

Section LatestWrite.

Implicit Types (c : collection) (w : World) (un : string) (e : Env).

Lemma stored_password_created c un pw (i : N) (t : Z) un' :
  List.find (matches un) c = None →
  stored_password (c ++ [ensure_id i (marshal (mkCredential 0 un pw t))]) un'
  = if String.eqb un un' then Some pw else stored_password c un'.
Proof.
  intros Hnone. unfold stored_password, FindOne.
  destruct (String.eqb_spec un un') as [<- | Hne].
  - rewrite (find_app_none _ _ _ Hnone). simpl.
    by rewrite created_matches.
  - destruct (List.find (matches un') c) as [d|] eqn:Hf.
    + by rewrite (find_app_some _ _ _ _ Hf).
    + rewrite (find_app_none _ _ _ Hf). simpl.
      by rewrite (matches_other un un' _ Hne (created_matches i un pw t)).
Qed.

(** One step changes the stored password of [un] exactly when it
    commits a write to [un]. *)
Lemma step_stored_password w ev w' o un :
  step w ev = Some (w', o) →
  stored_password (coll w') un
  = match commit_of ev o with
    | Some cw =>
        if String.eqb (fst cw) un then Some (snd cw)
        else stored_password (coll w) un
    | None => stored_password (coll w) un
    end.
Proof.
  destruct ev as [r e | r e | i e |]; simpl.
  - destruct (createCredential (coll w) r e) as [resp c'] eqn:Hc.
    intros [= <- <-]. simpl.
    destruct (Z.eqb_spec (status resp) StatusCreated) as [Hs | Hs].
    + destruct (create_success _ _ _ _ _ Hc Hs)
        as (b & -> & _ & _ & Hnone & ->).
      by apply stored_password_created.
    + rewrite (create_not_created _ _ _ _ _ Hc Hs). by destruct (Body r).
  - pose proof (retrieve_coll w r e) as H.
    destruct (retrieveCredential w r e). intros [= <- <-].
    simpl in *. by rewrite H.
  - destruct (pending w !! i) as [g|]; [| done].
    destruct (rot_wake g <=? now e)%Z; [| done].
    destruct (fault e) as [msg|] eqn:Hf.
    { rewrite (rotate_fault _ _ _ _ Hf). by intros [= <- <-]. }
    pose proof (stored_password_rotate_same (coll w) g e Hf) as Hsame.
    pose proof (stored_password_rotate_other (coll w) g e un) as Hother.
    pose proof (rotate_absent (coll w) g e) as Habs.
    rewrite (rotate_no_fault _ _ _ Hf) in *.
    intros [= <- <-]. simpl in *.
    destruct (present (coll w) (rot_un g)); simpl.
    + destruct (String.eqb_spec (rot_un g) un) as [<- | Hne];
        [by apply Hsame | apply Hother; congruence].
    + by rewrite Habs.
  - by intros [= <- <-].
Qed.

Lemma run_stored_password evs : ∀ w w' os un,
  run w evs = Some (w', os) →
  stored_password (coll w') un
  = last_write un (stored_password (coll w) un) (commits evs os).
Proof.
  induction evs as [|ev evs IH]; intros w w' os un; simpl.
  - by intros [= <- <-].
  - destruct (step w ev) as [[w1 o]|] eqn:Hs; [| done].
    destruct (run w1 evs) as [[w2 os']|] eqn:Hr; [| done].
    intros [= <- <-]. rewrite (IH _ _ _ un Hr).
    rewrite (step_stored_password _ _ _ _ un Hs). simpl.
    by destruct (commit_of ev o) as [[u p]|].
Qed.

Lemma dom_created (i : N) un pw (t : Z) :
  dom (ensure_id i (marshal (mkCredential 0 un pw t))) = credential_fields.
Proof.
  rewrite created_unfold, !dom_insert_L, dom_empty_L.
  unfold credential_fields. set_solver.
Qed.

Lemma dom_set_fields npw t (d : document) :
  dom d = credential_fields → dom (set_fields npw t d) = credential_fields.
Proof.
  intros Hd. unfold set_fields. rewrite !dom_insert_L, Hd.
  unfold credential_fields. set_solver.
Qed.

Lemma fields_inv_step w ev w' o :
  fields_inv (coll w) → step w ev = Some (w', o) → fields_inv (coll w').
Proof.
  intros Hinv. destruct ev as [r e | r e | i e |]; simpl.
  - destruct (createCredential (coll w) r e) as [resp c'] eqn:Hc.
    intros [= <- <-]. simpl.
    destruct (Z.eq_dec (status resp) StatusCreated) as [Hs | Hs].
    + destruct (create_success _ _ _ _ _ Hc Hs) as (b & _ & _ & _ & _ & ->).
      apply Forall_app. split; [done |].
      constructor; [apply dom_created | constructor].
    + by rewrite (create_not_created _ _ _ _ _ Hc Hs).
  - pose proof (retrieve_coll w r e) as H.
    destruct (retrieveCredential w r e). intros [= <- <-].
    simpl in *. by rewrite H.
  - destruct (pending w !! i) as [g|]; [| done].
    destruct (rot_wake g <=? now e)%Z; [| done].
    unfold rotate, UpdateOne. destruct (fault e); [by intros [= <- <-] |].
    intros [= <- <-]. simpl. clear -Hinv.
    induction Hinv as [|d c Hd Hc IH]; simpl; [constructor |].
    destruct (matches (rot_un g) d).
    + constructor; [by apply dom_set_fields | done].
    + by constructor.
  - by intros [= <- <-].
Qed.

Lemma fields_inv_run evs : ∀ w w' os,
  fields_inv (coll w) → run w evs = Some (w', os) → fields_inv (coll w').
Proof.
  induction evs as [|ev evs IH]; intros w w' os Hinv; simpl.
  - by intros [= <- <-].
  - destruct (step w ev) as [[w1 o]|] eqn:Hs; [| done].
    destruct (run w1 evs) as [[w2 os']|] eqn:Hr; [| done].
    intros [= <- <-]. eapply IH; [| exact Hr].
    eapply fields_inv_step; [exact Hinv | exact Hs].
Qed.

End LatestWrite.

(** ** Two retrievals within the delay *)

Section Race.

Implicit Types (c : collection) (w : World) (un : string) (e : Env)
  (g : Rotation).

Lemma present_rotate c g e un :
  present (snd (rotate c g e)) un = present c un.
Proof.
  unfold rotate, UpdateOne, present. destruct (fault e); [done |]. simpl.
  induction c as [|d c IH]; simpl; [done |].
  destruct (matches (rot_un g) d); simpl.
  - by rewrite matches_set_fields.
  - by rewrite IH.
Qed.

(** A successful retrieval: the answer, and the goroutine it adds. *)
Lemma retrieve_present w un m bd e :
  wf_coll (coll w) = true → present (coll w) un = true → fault e = None →
  ∃ pw, stored_password (coll w) un = Some pw ∧
    retrieveCredential w (mkRequest m ("/retrieve/" +:+ un) bd) e
    = (retrieved un pw (now e),
       mkWorld (coll w)
         (pending w ++ [mkRotation un (generateRandomPassword (rnd e))
                          (now e + rotation_delay)])).
Proof.
  intros Hwf Hp Hf.
  destruct (read_present _ _ Hwf Hp) as (d & cred & Hd & Hdec & Hne & Hsp).
  exists (Password cred). split; [exact Hsp |].
  unfold retrieveCredential.
  by rewrite (retrieve_respond_found _ _ _ _ _ d cred Hne)
    by (by rewrite ?Hf).
Qed.

(** A goroutine that has slept long enough wakes and updates. *)
Lemma step_wake w i g e :
  pending w !! i = Some g → (rot_wake g ≤ now e)%Z → fault e = None →
  step w (Wake i e)
  = Some (mkWorld (snd (rotate (coll w) g e)) (delete i (pending w)),
          Rotated g (Ok (if present (coll w) (rot_un g) then 1 else 0))).
Proof.
  intros Hi Ht Hf. unfold step. rewrite Hi.
  apply Z.leb_le in Ht. rewrite Ht.
  by rewrite (rotate_no_fault _ _ _ Hf).
Qed.

(** Two rotations of one username, one after the other: both updates
    match, and the second one's password is what remains. *)
Lemma rotate_twice c ga gb ea eb :
  fault ea = None → fault eb = None →
  rot_un ga = rot_un gb → present c (rot_un ga) = true →
  stored_password (snd (rotate c ga ea)) (rot_un ga) = Some (rot_npw ga) ∧
  present (snd (rotate c ga ea)) (rot_un gb) = true ∧
  stored_password (snd (rotate (snd (rotate c ga ea)) gb eb)) (rot_un gb)
  = Some (rot_npw gb).
Proof.
  intros Ha Hb Hun Hp. split; [by apply stored_password_rotate_same |].
  assert (present (snd (rotate c ga ea)) (rot_un gb) = true) as Hp'
    by (by rewrite present_rotate, <- Hun).
  split; [exact Hp' | by apply stored_password_rotate_same].
Qed.

End Race.

Section RaceRuns.

Implicit Types (c : collection) (w : World) (un : string) (e : Env)
  (g : Rotation).

Lemma run_cons w ev evs w1 o w2 os :
  step w ev = Some (w1, o) → run w1 evs = Some (w2, os) →
  run w (ev :: evs) = Some (w2, o :: os).
Proof. intros Hs Hr. simpl. by rewrite Hs, Hr. Qed.

Lemma step_retrieve_present w un m bd e pw :
  wf_coll (coll w) = true → present (coll w) un = true → fault e = None →
  stored_password (coll w) un = Some pw →
  step w (Retrieve (mkRequest m ("/retrieve/" +:+ un) bd) e)
  = Some (mkWorld (coll w)
            (pending w ++ [mkRotation un (generateRandomPassword (rnd e))
                             (now e + rotation_delay)]),
          Responded (retrieved un pw (now e))).
Proof.
  intros Hwf Hp Hf Hpw.
  destruct (retrieve_present w un m bd e Hwf Hp Hf) as (pw' & Hpw' & Hr).
  assert (pw' = pw) as -> by congruence.
  unfold step. by rewrite Hr.
Qed.

(** Two goroutines [ga], [gb] of one username wake one after the
    other, at the positions [i] and [j] of the list of sleepers. *)
Lemma run_two_wakes w i j ga gb ea eb rest :
  pending w !! i = Some ga →
  delete i (pending w) !! j = Some gb →
  delete j (delete i (pending w)) = rest →
  (rot_wake ga ≤ now ea)%Z → (rot_wake gb ≤ now eb)%Z →
  fault ea = None → fault eb = None →
  rot_un ga = rot_un gb → present (coll w) (rot_un ga) = true →
  ∃ c', run w [Wake i ea; Wake j eb]
        = Some (mkWorld c' rest, [Rotated ga (Ok 1); Rotated gb (Ok 1)]) ∧
    stored_password c' (rot_un gb) = Some (rot_npw gb).
Proof.
  intros Hi Hj Hrest Hta Htb Hfa Hfb Hun Hp.
  destruct (rotate_twice (coll w) ga gb ea eb Hfa Hfb Hun Hp)
    as (_ & Hp' & Hfinal).
  eexists. split; [| exact Hfinal].
  eapply run_cons.
  { rewrite (step_wake w i ga ea Hi Hta Hfa). by rewrite Hp. }
  eapply run_cons.
  { rewrite (step_wake (mkWorld (snd (rotate (coll w) ga ea))
                          (delete i (pending w))) j gb eb Hj Htb Hfb).
    simpl coll. rewrite Hp'. simpl pending. by rewrite Hrest. }
  done.
Qed.

(** C1 (as the code has it). Two retrievals of one username start two
    rotation goroutines, and both rotations are applied: each update
    matches the record ([MatchedCount] 1, no error) and overwrites
    the password, whatever happened to the record since its
    retrieval.  None is cancelled.  Each goroutine may wake as soon as
    its own ten seconds are over ([rot_wake] is the time of its
    retrieval plus the delay), the other one's sleep playing no part;
    the password that remains is the one of the goroutine that wakes
    last, in either order of waking. *)
Theorem both_rotations_apply w un m bd e1 e2 e3 e4 :
  wf_coll (coll w) = true → present (coll w) un = true →
  fault e1 = None → fault e2 = None → fault e3 = None → fault e4 = None →
  let r := mkRequest m ("/retrieve/" +:+ un) bd in
  let n := List.length (pending w) in
  let g1 := mkRotation un (generateRandomPassword (rnd e1))
              (now e1 + rotation_delay) in
  let g2 := mkRotation un (generateRandomPassword (rnd e2))
              (now e2 + rotation_delay) in
  ∃ pw, stored_password (coll w) un = Some pw ∧
    ((rot_wake g1 ≤ now e3)%Z → (rot_wake g2 ≤ now e4)%Z →
     ∃ c', run w [Retrieve r e1; Retrieve r e2; Wake n e3; Wake n e4]
           = Some (mkWorld c' (pending w),
                   [Responded (retrieved un pw (now e1));
                    Responded (retrieved un pw (now e2));
                    Rotated g1 (Ok 1); Rotated g2 (Ok 1)]) ∧
       stored_password c' un = Some (rot_npw g2)) ∧
    ((rot_wake g2 ≤ now e3)%Z → (rot_wake g1 ≤ now e4)%Z →
     ∃ c', run w [Retrieve r e1; Retrieve r e2; Wake (S n) e3; Wake n e4]
           = Some (mkWorld c' (pending w),
                   [Responded (retrieved un pw (now e1));
                    Responded (retrieved un pw (now e2));
                    Rotated g2 (Ok 1); Rotated g1 (Ok 1)]) ∧
       stored_password c' un = Some (rot_npw g1)).
Proof.
  intros Hwf Hp Hf1 Hf2 Hf3 Hf4 r n g1 g2. subst n.
  destruct (read_present _ _ Hwf Hp) as (d & cred & _ & _ & _ & Hpw).
  exists (Password cred). split; [exact Hpw |].
  set (w2 := mkWorld (coll w) ((pending w ++ [g1]) ++ [g2])).
  assert (∀ evs w' os, run w2 evs = Some (w', os) →
            run w (Retrieve r e1 :: Retrieve r e2 :: evs)
            = Some (w', Responded (retrieved un (Password cred) (now e1))
                        :: Responded (retrieved un (Password cred) (now e2))
                        :: os)) as Hprefix.
  { intros evs w' os Hr.
    eapply run_cons; [by apply step_retrieve_present |].
    eapply run_cons; [| exact Hr].
    by apply (step_retrieve_present (mkWorld (coll w) (pending w ++ [g1]))). }
  assert ((pending w ++ [g1]) ++ [g2] = pending w ++ g1 :: [g2]) as Hpend
    by (by rewrite <- app_assoc).
  split.
  - intros Hwake1 Hwake2.
    destruct (run_two_wakes w2 (List.length (pending w))
                (List.length (pending w)) g1 g2 e3 e4 (pending w))
      as (c' & Hr & Hs); try done.
    + simpl. rewrite Hpend. by apply list_lookup_middle.
    + simpl. rewrite Hpend, delete_middle. by apply list_lookup_middle.
    + simpl. rewrite Hpend, delete_middle.
      rewrite (delete_middle (pending w) [] g2). apply app_nil_r.
    + exists c'. split; [by apply Hprefix | exact Hs].
  - intros Hwake2 Hwake1.
    assert (S (List.length (pending w)) = List.length (pending w ++ [g1]))
      as Hn by (rewrite length_app; simpl; lia).
    destruct (run_two_wakes w2 (S (List.length (pending w)))
                (List.length (pending w)) g2 g1 e3 e4 (pending w))
      as (c' & Hr & Hs); try done.
    + simpl. by apply list_lookup_middle.
    + simpl. rewrite Hn, (delete_middle (pending w ++ [g1]) [] g2).
      rewrite app_nil_r. by apply list_lookup_middle.
    + simpl. rewrite Hn, (delete_middle (pending w ++ [g1]) [] g2).
      rewrite app_nil_r, (delete_middle (pending w) [] g1). apply app_nil_r.
    + exists c'. split; [by apply Hprefix | exact Hs].
Qed.

End RaceRuns.

Section RaceExamples.

Lemma both_rotations_apply_witness :
  wf_coll (coll Sample.vault) = true ∧
  present (coll Sample.vault) "alice" = true ∧
  (∃ c', run Sample.vault
           [Retrieve (Sample.get "alice") (Sample.env 100 0 3);
            Retrieve (Sample.get "alice") (Sample.env 1000 0 5);
            Wake 0 (Sample.env 10100 0 0); Wake 0 (Sample.env 11000 0 0)]
         = Some (mkWorld c' [],
                 [Responded (retrieved "alice" "Init@123" 100);
                  Responded (retrieved "alice" "Init@123" 1000);
                  Rotated Sample.g1 (Ok 1); Rotated Sample.g2 (Ok 1)]) ∧
     stored_password c' "alice" = Some (rot_npw Sample.g2)) ∧
  (∃ c', run Sample.vault
           [Retrieve (Sample.get "alice") (Sample.env 100 0 3);
            Retrieve (Sample.get "alice") (Sample.env 1000 0 5);
            Wake 1 (Sample.env 11000 0 0); Wake 0 (Sample.env 11500 0 0)]
         = Some (mkWorld c' [],
                 [Responded (retrieved "alice" "Init@123" 100);
                  Responded (retrieved "alice" "Init@123" 1000);
                  Rotated Sample.g2 (Ok 1); Rotated Sample.g1 (Ok 1)]) ∧
     stored_password c' "alice" = Some (rot_npw Sample.g1)).
Proof.
  split; [reflexivity |]. split; [reflexivity |]. split.
  - destruct (both_rotations_apply Sample.vault "alice" "GET" None
                (Sample.env 100 0 3) (Sample.env 1000 0 5)
                (Sample.env 10100 0 0) (Sample.env 11000 0 0)
                eq_refl eq_refl eq_refl eq_refl eq_refl eq_refl)
      as (pw & Hpw & Hfirst & _).
    injection Hpw as <-.
    apply Hfirst; vm_compute; discriminate.
  - destruct (both_rotations_apply Sample.vault "alice" "GET" None
                (Sample.env 100 0 3) (Sample.env 1000 0 5)
                (Sample.env 11000 0 0) (Sample.env 11500 0 0)
                eq_refl eq_refl eq_refl eq_refl eq_refl eq_refl)
      as (pw & Hpw & _ & Hsecond).
    injection Hpw as <-.
    apply Hsecond; vm_compute; discriminate.
Defined.

(** C1, counterexample. Alice is created with "Init@123" and
    retrieved at times 100 and 1000, within ten seconds.  The first
    goroutine wakes at 10100 and writes its password; the second
    wakes at 11000 and writes its own over it: two rotations were
    applied, the second against a record that is no longer the one
    its retrieval read, and none was cancelled. *)
Lemma race_both_rotations_write :
  observe "alice" (run init (take 4 Sample.race))
  = Some (Some "dkryFMT07%dk", [Sample.g2],
          [Responded (created "alice" "Init@123");
           Responded (retrieved "alice" "Init@123" 100);
           Responded (retrieved "alice" "Init@123" 1000);
           Rotated Sample.g1 (Ok 1)]) ∧
  observe "alice" (run init Sample.race)
  = Some (Some "fmtAHOV29&fm", [],
          [Responded (created "alice" "Init@123");
           Responded (retrieved "alice" "Init@123" 100);
           Responded (retrieved "alice" "Init@123" 1000);
           Rotated Sample.g1 (Ok 1); Rotated Sample.g2 (Ok 1)]).
Proof. split; vm_compute; reflexivity. Qed.

End RaceExamples.

(** ** Scheduling: one goroutine for every retrieval *)

Section Scheduling.

Implicit Types (c : collection) (w : World) (un : string) (e : Env).

(** What a 200 of [retrieveCredential] tells about the world. *)
Lemma retrieve_success w r e resp w' :
  retrieveCredential w r e = (resp, w') → status resp = StatusOK →
  w' = mkWorld (coll w)
         (pending w ++ [mkRotation (TrimPrefix (Path r) "/retrieve/")
                          (generateRandomPassword (rnd e))
                          (now e + rotation_delay)]).
Proof.
  unfold retrieveCredential, retrieve_respond.
  destruct (String.eqb _ ""); [by intros [= <- <-] |].
  destruct (FindOne _ _ _) as [d | []]; try by intros [= <- <-].
  destruct (decode d); by intros [= <- <-].
Qed.

Lemma pending_for_snoc w un g :
  pending_for un (mkWorld (coll w) (pending w ++ [g]))
  = pending_for un w ++ (if String.eqb (rot_un g) un then [g] else []).
Proof. unfold pending_for. simpl. by rewrite List.filter_app. Qed.

(** C5 (as the code has it). [retrieveCredential] does not look at
    the goroutines already asleep: every retrieval answered 200
    starts one more rotation goroutine for its username, so the
    number of rotations asleep for that username grows by one each
    time; nothing is rejected or merged. *)
Theorem retrieve_always_spawns w r e resp w' :
  retrieveCredential w r e = (resp, w') → status resp = StatusOK →
  let un := TrimPrefix (Path r) "/retrieve/" in
  pending w' = pending w ++ [mkRotation un (generateRandomPassword (rnd e))
                               (now e + rotation_delay)] ∧
  List.length (pending_for un w') = S (List.length (pending_for un w)).
Proof.
  intros Hr Hs un. rewrite (retrieve_success _ _ _ _ _ Hr Hs).
  split; [done |].
  rewrite pending_for_snoc. simpl rot_un. fold un.
  rewrite String.eqb_refl, length_app. simpl. lia.
Qed.

Lemma retrieve_always_spawns_witness :
  List.length
    (pending_for "alice"
       (snd (retrieveCredential
               (mkWorld (coll Sample.vault) [Sample.g1])
               (Sample.get "alice") (Sample.env 1000 0 5)))) = 2%nat.
Proof.
  apply (retrieve_always_spawns (mkWorld (coll Sample.vault) [Sample.g1])
           (Sample.get "alice") (Sample.env 1000 0 5)
           (retrieved "alice" "Init@123" 1000));
    reflexivity.
Defined.

(** C5, counterexample. After two retrievals of alice at times 100
    and 1000, two rotation goroutines for alice are asleep at once. *)
Lemma two_rotations_pending :
  observe "alice" (run init (take 3 Sample.race))
  = Some (Some "Init@123", [Sample.g1; Sample.g2],
          [Responded (created "alice" "Init@123");
           Responded (retrieved "alice" "Init@123" 100);
           Responded (retrieved "alice" "Init@123" 1000)]) ∧
  pending_for "alice" (mkWorld [Sample.alice_doc] [Sample.g1; Sample.g2])
  = [Sample.g1; Sample.g2].
Proof. split; vm_compute; reflexivity. Qed.

End Scheduling.

(** ** The update of a rotation is unconditional *)

Section Unconditional.

Implicit Types (c : collection) (w : World) (un : string) (e : Env)
  (g : Rotation).

Lemma FindOne_rotate c g e d :
  fault e = None → FindOne c (rot_un g) None = Ok d →
  FindOne (snd (rotate c g e)) (rot_un g) None
  = Ok (set_fields (rot_npw g) (now e) d).
Proof.
  intros Hf Hd. rewrite (rotate_no_fault _ _ _ Hf). simpl.
  unfold FindOne in *.
  rewrite find_update_first_same by (intros; apply matches_set_fields).
  destruct (List.find _ c); [| done]. by injection Hd as ->.
Qed.

(** C4 (as the code has it). The update of a rotation is an
    [UpdateOne] filtered by the username alone; it carries no
    expected version.  Unless the driver call itself fails it returns
    no error: when a record with the username is stored, whatever its
    contents, the update matches it and sets [password] and
    [last_rotated] on it, and the record has no [version] field
    before or after; when no record has the username, nothing is
    changed and the result is [MatchedCount] 0, again without
    error. *)
Theorem rotation_update_unconditional c g e :
  fault e = None →
  (∀ d, FindOne c (rot_un g) None = Ok d →
     fst (rotate c g e) = Ok 1 ∧
     FindOne (snd (rotate c g e)) (rot_un g) None
     = Ok (set_fields (rot_npw g) (now e) d) ∧
     set_fields (rot_npw g) (now e) d !! "version" = d !! "version") ∧
  (FindOne c (rot_un g) None = Err ErrNoDocuments →
     rotate c g e = (Ok 0, c)).
Proof.
  intros Hf. split.
  - intros d Hd. repeat split.
    + rewrite (rotate_no_fault _ _ _ Hf). simpl.
      destruct (FindOne_ok _ _ _ Hd) as [Hin Hu].
      assert (present c (rot_un g) = true) as ->; [| done].
      apply present_true. by exists d.
    + by apply FindOne_rotate.
    + by apply set_fields_other.
  - intros Hnone.
    assert (List.find (matches (rot_un g)) c = None) as Hfind.
    { unfold FindOne in Hnone. by destruct (List.find _ c). }
    rewrite (rotate_no_fault _ _ _ Hf).
    rewrite (update_first_none _ _ _ Hfind).
    apply present_false in Hfind. by rewrite Hfind.
Qed.

Lemma rotation_update_unconditional_witness :
  fst (rotate [set_fields (rot_npw Sample.g1) 10100 Sample.alice_doc]
         Sample.g2 (Sample.env 11000 0 0)) = Ok 1
  ∧ rotate [] Sample.g2 (Sample.env 11000 0 0) = (Ok 0, []).
Proof.
  destruct (rotation_update_unconditional
              [set_fields (rot_npw Sample.g1) 10100 Sample.alice_doc]
              Sample.g2 (Sample.env 11000 0 0) eq_refl) as [Hfound _].
  destruct (rotation_update_unconditional [] Sample.g2
              (Sample.env 11000 0 0) eq_refl) as [_ Hnone].
  split; [| by apply Hnone].
  by apply (Hfound (set_fields (rot_npw Sample.g1) 10100 Sample.alice_doc)).
Defined.

(** C4, counterexample. The second retrieval of alice read the record
    created at time 0.  When its goroutine wakes, the record has been
    rewritten by the first rotation; the update is applied all the
    same: no conflict is reported, the password is overwritten, and
    no version field appears. *)
Lemma stale_rotation_overwrites :
  let read := Sample.alice_doc in
  let stored := set_fields (rot_npw Sample.g1) 10100 Sample.alice_doc in
  coll <$> (fst <$> run init (take 3 Sample.race)) = Some [read] ∧
  coll <$> (fst <$> run init (take 4 Sample.race)) = Some [stored] ∧
  stored ≠ read ∧
  rotate [stored] Sample.g2 (Sample.env 11000 0 0)
  = (Ok 1, [set_fields (rot_npw Sample.g2) 11000 stored]) ∧
  set_fields (rot_npw Sample.g2) 11000 stored !! "password"
  = Some (BString "fmtAHOV29&fm") ∧
  set_fields (rot_npw Sample.g2) 11000 stored !! "version" = None.
Proof.
  repeat split; try (vm_compute; reflexivity).
  intros H. apply (f_equal (λ d : document, d !! "password")) in H.
  vm_compute in H. discriminate.
Qed.

End Unconditional.

(** ** Rotations do not survive the process *)

Section Durability.

Implicit Types (w : World) (e : Env).

Lemma quiet_run evs : ∀ c w' os,
  forallb quiet evs = true → run (mkWorld c []) evs = Some (w', os) →
  w' = mkWorld c [].
Proof.
  induction evs as [|ev evs IH]; intros c w' os Hq; simpl.
  - by intros [= <- <-].
  - simpl in Hq. apply andb_true_iff in Hq as [Hev Hq].
    destruct ev as [r e | r e | i e |]; try done; simpl.
    destruct (run (mkWorld c []) evs) as [[w2 os']|] eqn:Hr; [| done].
    intros [= <- <-]. by apply (IH c w2 os').
Qed.

(** C2 (as the code has it). The rotation that [retrieveCredential]
    starts is a goroutine of the process and is stored nowhere: the
    call leaves the collection as it was, and once the process has
    restarted no goroutine is asleep.  So whatever follows the restart,
    short of new requests, the world stays the collection of the time
    of the retrieval with nothing pending: the rotation is never
    applied. *)
Theorem rotation_not_persisted w r e evs w' os :
  forallb quiet evs = true →
  run (snd (retrieveCredential w r e)) (Restart :: evs) = Some (w', os) →
  coll (snd (retrieveCredential w r e)) = coll w ∧
  w' = mkWorld (coll w) [].
Proof.
  intros Hq Hr. split; [apply retrieve_coll |].
  simpl in Hr. rewrite retrieve_coll in Hr.
  destruct (run (mkWorld (coll w) []) evs) as [[w2 os']|] eqn:Hr2; [| done].
  injection Hr as <- _. by apply (quiet_run evs _ _ os').
Qed.

Lemma rotation_not_persisted_witness :
  run (snd (retrieveCredential Sample.vault (Sample.get "alice")
              (Sample.env 100 0 3)))
      [Restart; Restart]
  = Some (Sample.vault, [Restarted; Restarted]) ∧
  Sample.vault = mkWorld (coll Sample.vault) [].
Proof.
  split; [vm_compute; reflexivity |].
  apply (rotation_not_persisted Sample.vault (Sample.get "alice")
           (Sample.env 100 0 3) [Restart] Sample.vault
           [Restarted; Restarted]);
    [reflexivity | vm_compute; reflexivity].
Defined.

(** C2, counterexample. Alice is created and retrieved at time 100;
    the rotation sleeps until 10100.  The process restarts: the
    rotation is gone, it cannot wake at any later time, and the
    stored password stays the one that was handed out. *)
Lemma restart_loses_rotation :
  observe "alice" (run init (take 2 Sample.crash))
  = Some (Some "Init@123", [Sample.g1],
          [Responded (created "alice" "Init@123");
           Responded (retrieved "alice" "Init@123" 100)]) ∧
  observe "alice" (run init Sample.crash)
  = Some (Some "Init@123", [],
          [Responded (created "alice" "Init@123");
           Responded (retrieved "alice" "Init@123" 100);
           Restarted]) ∧
  run init (Sample.crash ++ [Wake 0 (Sample.env 20000 0 0)]) = None.
Proof. repeat split; vm_compute; reflexivity. Qed.

End Durability.

(** ** No version counter; the last write wins *)

Section Versions.

Implicit Types (w : World) (un : string).

Lemma version_not_a_field (d : document) :
  dom d = credential_fields → d !! "version" = None.
Proof.
  intros Hd. apply not_elem_of_dom. rewrite Hd. clear Hd d.
  unfold credential_fields. rewrite !not_elem_of_union, !not_elem_of_singleton.
  by repeat split.
Qed.

(** C3 (as the code has it). In every state the program reaches from
    the empty collection, a stored credential has exactly the fields
    [_id], [username], [password] and [last_rotated], and no version
    counter; the stored password of a username is the password of
    the most recent committed write to it (its creation, or the
    latest rotation whose update matched), and there is none when
    nothing was written. *)
Theorem password_is_latest_write evs w os :
  run init evs = Some (w, os) →
  (∀ d, d ∈ coll w → dom d = credential_fields ∧ d !! "version" = None) ∧
  (∀ un, stored_password (coll w) un = last_write un None (commits evs os)).
Proof.
  intros Hr. split.
  - assert (fields_inv (coll w)) as Hinv.
    { eapply fields_inv_run; [| exact Hr]. constructor. }
    intros d Hd. unfold fields_inv in Hinv. rewrite Forall_forall in Hinv.
    split; [by apply Hinv | apply version_not_a_field; by apply Hinv].
  - intros un. by rewrite (run_stored_password _ _ _ _ un Hr).
Qed.

Lemma password_is_latest_write_witness :
  commits Sample.race
    [Responded (created "alice" "Init@123");
     Responded (retrieved "alice" "Init@123" 100);
     Responded (retrieved "alice" "Init@123" 1000);
     Rotated Sample.g1 (Ok 1); Rotated Sample.g2 (Ok 1)]
  = [("alice", "Init@123"); ("alice", "dkryFMT07%dk");
     ("alice", "fmtAHOV29&fm")] ∧
  stored_password
    [set_fields (rot_npw Sample.g2) 11000
       (set_fields (rot_npw Sample.g1) 10100 Sample.alice_doc)] "alice"
  = Some "fmtAHOV29&fm".
Proof.
  split; [reflexivity |].
  apply (password_is_latest_write Sample.race
           (mkWorld [set_fields (rot_npw Sample.g2) 11000
                       (set_fields (rot_npw Sample.g1) 10100
                          Sample.alice_doc)] [])
           [Responded (created "alice" "Init@123");
            Responded (retrieved "alice" "Init@123" 100);
            Responded (retrieved "alice" "Init@123" 1000);
            Rotated Sample.g1 (Ok 1); Rotated Sample.g2 (Ok 1)]).
  vm_compute. reflexivity.
Defined.

(** C3, counterexample. The document that creating alice stores has
    no version field, and the document that two committed rotations
    leave has none either: nothing was set to 1 and nothing was
    increased. *)
Lemma no_version_counter :
  coll <$> (fst <$> run init (take 1 Sample.race))
  = Some [Sample.alice_doc] ∧
  Sample.alice_doc !! "version" = None ∧
  dom Sample.alice_doc = credential_fields ∧
  ∃ d, coll <$> (fst <$> run init Sample.race) = Some [d] ∧
    d !! "password" = Some (BString "fmtAHOV29&fm") ∧
    d !! "version" = None.
Proof.
  split; [vm_compute; reflexivity |].
  split; [reflexivity |].
  split; [apply dom_created |].
  eexists. split; [vm_compute; reflexivity |].
  split; reflexivity.
Qed.

End Versions.

(** * Further properties of the code *)

(** ** [strings.TrimPrefix] and [generateRandomPassword] *)

Section Library.

Lemma prefix_split (p s : string) :
  String.prefix p s = true →
  p +:+ String.substring (String.length p)
          (String.length s - String.length p) s = s.
Proof.
  revert s. induction p as [|a p IH]; intros s; simpl.
  - intros _. rewrite Nat.sub_0_r. apply substring_whole.
  - destruct s as [|b s]; simpl; [done |].
    destruct (ascii_dec a b) as [<- | ]; [| done].
    intros Hp. change (String a (p +:+ String.substring (String.length p)
                         (String.length s - String.length p) s) = String a s).
    f_equal. by apply IH.
Qed.

(** X1. [TrimPrefix] removes exactly the prefix: when [s] starts with
    [p], putting [p] back in front of the result gives [s]; when it
    does not, the result is [s] itself. *)
Theorem TrimPrefix_inverse (s p : string) :
  (String.prefix p s = true → p +:+ TrimPrefix s p = s) ∧
  (String.prefix p s = false → TrimPrefix s p = s).
Proof.
  unfold TrimPrefix. split; intros Hp; rewrite Hp; [| done].
  by apply prefix_split.
Qed.

Lemma TrimPrefix_inverse_witness :
  "/retrieve/" +:+ TrimPrefix "/retrieve/alice" "/retrieve/" = "/retrieve/alice"
  ∧ TrimPrefix "/health" "/retrieve/" = "/health".
Proof.
  split.
  - by apply (TrimPrefix_inverse "/retrieve/alice" "/retrieve/").
  - by apply (TrimPrefix_inverse "/health" "/retrieve/").
Defined.

Lemma string_of_list_ascii_length (l : list ascii) :
  String.length (string_of_list_ascii l) = List.length l.
Proof. induction l as [|a l IH]; simpl; [done | by rewrite IH]. Qed.

Lemma get_in (s : string) : ∀ k a,
  String.get k s = Some a → In a (list_ascii_of_string s).
Proof.
  induction s as [|b s IH]; intros k a; simpl; [done |].
  destruct k as [|k]; [intros [= ->]; by left | intros H; right; eauto].
Qed.

Lemma get_lt (s : string) : ∀ k,
  k < String.length s → ∃ a, String.get k s = Some a.
Proof.
  induction s as [|b s IH]; intros k; simpl; [lia |].
  destruct k as [|k]; [by eexists | intros H; apply IH; lia].
Qed.

Lemma byte_at_in (s : string) k :
  k < String.length s → In (byte_at s k) (list_ascii_of_string s).
Proof.
  intros Hk. unfold byte_at.
  destruct (get_lt s k Hk) as [a Ha]. rewrite Ha. by apply (get_in s k).
Qed.

(** X2. A generated password has twelve bytes, and each of them is a
    byte of the character set, whatever numbers the generator
    yields. *)
Theorem generateRandomPassword_shape (rnd : nat → nat) :
  String.length (generateRandomPassword rnd) = 12 ∧
  Forall (λ a, In a (list_ascii_of_string charset))
         (list_ascii_of_string (generateRandomPassword rnd)).
Proof.
  unfold generateRandomPassword. split.
  - by rewrite string_of_list_ascii_length, length_map, length_seq.
  - rewrite list_ascii_of_string_of_list_ascii. apply Forall_forall.
    intros a Ha. apply list_elem_of_In, in_map_iff in Ha as (i & <- & _).
    apply byte_at_in. unfold Intn. apply Nat.mod_upper_bound. done.
Qed.

End Library.

(** ** All the answers of [createCredential] *)

Section CreateAnswers.

Implicit Types (c : collection) (e : Env) (r : Request).

(** X4. [createCredential] answers 201, 400, 405, 409 or 500.  On 201
    the answer echoes the username and password of the body, and the
    collection gains, at its end, one document that decodes to the
    credential of the body with the generated [_id] and the time of
    the call as [LastRotated].  On every other answer the collection
    is unchanged. *)
Theorem create_outcomes c r e resp c' :
  createCredential c r e = (resp, c') →
  (∃ b, Body r = Some b ∧
     resp = created (b_username b) (b_password b) ∧
     ∃ d, c' = c ++ [d] ∧
       decode d = Some (mkCredential (oid e) (b_username b) (b_password b)
                          (now e))) ∨
  (c' = c ∧
   (status resp = StatusBadRequest ∨ status resp = StatusMethodNotAllowed ∨
    status resp = StatusConflict ∨ status resp = StatusInternalServerError)).
Proof.
  unfold createCredential.
  destruct (negb _); [intros [= <- <-]; right; auto |].
  destruct (Body r) as [b|]; [| intros [= <- <-]; right; auto].
  destruct (_ || _); [intros [= <- <-]; right; auto |].
  unfold InsertOne. destruct (fault e); [intros [= <- <-]; right; auto |].
  destruct (violates_unique c _); [intros [= <- <-]; right; auto |].
  intros [= <- <-]. left. exists b. repeat split.
  eexists. split; [done | apply created_decode].
Qed.

Lemma create_outcomes_witness :
  (∃ b, Body (Sample.create "bob" "Bob#4567") = Some b ∧
     HttpJson StatusCreated
       (<["username" := JStr "bob"]>
          (<["password" := JStr "Bob#4567"]>
             (<["message" := JStr "Credential created successfully"]> ∅)))
     = created (b_username b) (b_password b) ∧
     ∃ d, Sample2.two = coll Sample.vault ++ [d] ∧
       decode d = Some (mkCredential 2 (b_username b) (b_password b) 5)) ∨
  (Sample2.two = coll Sample.vault ∧
   (StatusCreated = StatusBadRequest ∨ StatusCreated = StatusMethodNotAllowed ∨
    StatusCreated = StatusConflict ∨
    StatusCreated = StatusInternalServerError)).
Proof.
  apply (create_outcomes (coll Sample.vault) (Sample.create "bob" "Bob#4567")
           (Sample.env 5 2 0)
           (HttpJson StatusCreated
              (<["username" := JStr "bob"]>
                 (<["password" := JStr "Bob#4567"]>
                    (<["message" := JStr "Credential created successfully"]> ∅))))
           Sample2.two).
  vm_compute. reflexivity.
Defined.

(** X5. The checks of [createCredential] come before any use of the
    collection and in this order: a method other than POST is answered
    405 whatever the body; a POST whose body is not valid JSON is
    answered 400 "Invalid JSON"; a POST with an empty username or an
    empty password is answered 400 "Username and password required".
    In all three cases the collection is unchanged, also when the
    driver would fail. *)
Theorem create_rejects c r e :
  (Method r ≠ "POST" →
   createCredential c r e
   = (HttpError StatusMethodNotAllowed "Only POST allowed", c)) ∧
  (Method r = "POST" → Body r = None →
   createCredential c r e = (HttpError StatusBadRequest "Invalid JSON", c)) ∧
  (Method r = "POST" → ∀ b, Body r = Some b →
   b_username b = "" ∨ b_password b = "" →
   createCredential c r e
   = (HttpError StatusBadRequest "Username and password required", c)).
Proof.
  unfold createCredential. repeat split.
  - intros Hm. apply String.eqb_neq in Hm. by rewrite Hm.
  - intros -> ->. done.
  - intros -> b -> Hempty. simpl.
    assert (String.eqb (b_username b) "" || String.eqb (b_password b) "" = true)
      as ->; [| done].
    apply orb_true_iff. destruct Hempty as [-> | ->]; auto.
Qed.

Lemma create_rejects_witness :
  createCredential (coll Sample.vault) (mkRequest "GET" "/create" None)
    (Sample2.faulty 9 "timeout")
  = (HttpError StatusMethodNotAllowed "Only POST allowed", coll Sample.vault)
  ∧ createCredential (coll Sample.vault) (mkRequest "POST" "/create" None)
      (Sample.env 9 3 0)
    = (HttpError StatusBadRequest "Invalid JSON", coll Sample.vault)
  ∧ createCredential (coll Sample.vault) (Sample.create "carol" "")
      (Sample.env 9 3 0)
    = (HttpError StatusBadRequest "Username and password required",
       coll Sample.vault).
Proof.
  split; [| split].
  - apply (create_rejects (coll Sample.vault) (mkRequest "GET" "/create" None)
             (Sample2.faulty 9 "timeout")). discriminate.
  - by apply (create_rejects (coll Sample.vault)
                (mkRequest "POST" "/create" None) (Sample.env 9 3 0)).
  - destruct (create_rejects (coll Sample.vault) (Sample.create "carol" "")
                (Sample.env 9 3 0)) as (_ & _ & H).
    apply (H eq_refl (mkBody "carol" "") eq_refl). by right.
Defined.

(** X6. When the insert of a well-formed request fails in the driver
    for a reason other than a write error, [createCredential] answers
    500 with "Insert failed: " and the driver's message, and the
    collection is unchanged; this holds also when the username is
    already taken. *)
Theorem create_driver_failure c r b e msg :
  Method r = "POST" → Body r = Some b →
  b_username b ≠ "" → b_password b ≠ "" →
  fault e = Some msg →
  createCredential c r e
  = (HttpError StatusInternalServerError ("Insert failed: " +:+ msg), c).
Proof.
  intros Hm Hb Hu Hp Hf. unfold createCredential.
  rewrite Hm, Hb. simpl negb. cbv iota.
  rewrite (eqb_empty_false _ Hu), (eqb_empty_false _ Hp). simpl orb. cbv iota.
  unfold InsertOne. by rewrite Hf.
Qed.

Lemma create_driver_failure_witness :
  createCredential (coll Sample.vault) (Sample.create "alice" "Other#456")
    (Sample2.faulty 9 "timeout")
  = (HttpError StatusInternalServerError "Insert failed: timeout",
     coll Sample.vault).
Proof.
  apply (create_driver_failure (coll Sample.vault)
           (Sample.create "alice" "Other#456") (mkBody "alice" "Other#456")
           (Sample2.faulty 9 "timeout") "timeout");
    try reflexivity; discriminate.
Defined.

End CreateAnswers.

(** ** All the answers of [retrieveCredential] *)

Section RetrieveAnswers.

Implicit Types (c : collection) (w : World) (e : Env) (r : Request).

(** X7. On a collection of well-formed credential documents,
    [retrieveCredential] answers 200, 400, 404 or 500 and never writes
    to the collection.  It starts a rotation goroutine exactly when it
    answers 200: then the answer carries the password of the document
    read, and the goroutine is added at the end of the sleepers; on
    every other answer the world is unchanged. *)
Theorem retrieve_outcomes w r e resp w' :
  wf_coll (coll w) = true →
  retrieveCredential w r e = (resp, w') →
  coll w' = coll w ∧
  let un := TrimPrefix (Path r) "/retrieve/" in
  ((∃ d pw, FindOne (coll w) un (fault e) = Ok d ∧
      d !! "password" = Some (BString pw) ∧
      resp = retrieved un pw (now e) ∧
      pending w' = pending w ++ [mkRotation un (generateRandomPassword (rnd e))
                                   (now e + rotation_delay)]) ∨
   (w' = w ∧
    (status resp = StatusBadRequest ∨ status resp = StatusNotFound ∨
     status resp = StatusInternalServerError))).
Proof.
  intros Hwf Hr. split.
  { pose proof (retrieve_coll w r e) as H. by rewrite Hr in H. }
  revert Hr. unfold retrieveCredential, retrieve_respond. simpl.
  destruct (String.eqb _ ""); [intros [= <- <-]; right; auto |].
  destruct (FindOne _ _ _) as [d | err] eqn:Hf.
  - assert (d ∈ coll w) as Hin.
    { unfold FindOne in Hf. destruct (fault e); [done |].
      destruct (List.find _ (coll w)) as [d'|] eqn:Hfind; [| done].
      injection Hf as <-. apply find_some in Hfind as [Hin _].
      by apply list_elem_of_In. }
    rewrite wf_coll_forall in Hwf.
    destruct (wf_doc_decode d (Hwf d Hin))
      as (i & u & p & t & _ & _ & Hpw & ->).
    intros [= <- <-]. left. by exists d, p.
  - destruct err; intros [= <- <-]; right; auto.
Qed.

Lemma retrieve_outcomes_witness :
  wf_coll (coll Sample.vault) = true ∧
  coll (snd (retrieveCredential Sample.vault (Sample.get "bob")
               (Sample.env 50 0 0))) = coll Sample.vault.
Proof.
  split; [reflexivity |].
  apply (retrieve_outcomes Sample.vault (Sample.get "bob") (Sample.env 50 0 0)
           (fst (retrieveCredential Sample.vault (Sample.get "bob")
                   (Sample.env 50 0 0))));
    reflexivity.
Defined.

(** X8. A path that is exactly "/retrieve/" names no username: the
    answer is 400 "Username is required in path", before any use of
    the collection, and no goroutine is started. *)
Theorem retrieve_without_username w r e :
  Path r = "/retrieve/" →
  retrieveCredential w r e
  = (HttpError StatusBadRequest "Username is required in path", w).
Proof.
  intros Hp. unfold retrieveCredential, retrieve_respond. by rewrite Hp.
Qed.

Lemma retrieve_without_username_witness :
  retrieveCredential Sample.vault (Sample.get "") (Sample2.faulty 9 "timeout")
  = (HttpError StatusBadRequest "Username is required in path", Sample.vault).
Proof.
  by apply (retrieve_without_username Sample.vault (Sample.get "")
              (Sample2.faulty 9 "timeout")).
Defined.

(** X9. When the read fails in the driver, [retrieveCredential]
    answers 500 "Database error" and starts no goroutine: nothing is
    rotated for a password that was not handed out. *)
Theorem retrieve_read_failure w un m bd e msg :
  un ≠ "" → fault e = Some msg →
  retrieveCredential w (mkRequest m ("/retrieve/" +:+ un) bd) e
  = (HttpError StatusInternalServerError "Database error", w).
Proof.
  intros Hne Hf. unfold retrieveCredential, retrieve_respond. simpl Path.
  rewrite TrimPrefix_app, (eqb_empty_false _ Hne).
  unfold FindOne. by rewrite Hf.
Qed.

Lemma retrieve_read_failure_witness :
  retrieveCredential (mkWorld (coll Sample.vault) [Sample.g1])
    (Sample.get "alice") (Sample2.faulty 9 "timeout")
  = (HttpError StatusInternalServerError "Database error",
     mkWorld (coll Sample.vault) [Sample.g1]).
Proof.
  apply (retrieve_read_failure (mkWorld (coll Sample.vault) [Sample.g1])
           "alice" "GET" None (Sample2.faulty 9 "timeout") "timeout");
    [discriminate | reflexivity].
Defined.

End RetrieveAnswers.

(** ** Retrievals and rotations, one after the other *)

Section Sequences.

Implicit Types (c : collection) (w : World) (un : string) (e : Env)
  (g : Rotation).

(** X10. Reading does not consume: two retrievals in a row, with no
    rotation waking in between, answer with the same password. *)
Theorem retrieve_twice_same w un m bd e1 e2 :
  wf_coll (coll w) = true → present (coll w) un = true →
  fault e1 = None → fault e2 = None →
  let r := mkRequest m ("/retrieve/" +:+ un) bd in
  ∃ pw, fst (retrieveCredential w r e1) = retrieved un pw (now e1) ∧
    fst (retrieveCredential (snd (retrieveCredential w r e1)) r e2)
    = retrieved un pw (now e2).
Proof.
  intros Hwf Hp Hf1 Hf2 r.
  destruct (retrieve_present w un m bd e1 Hwf Hp Hf1) as (pw & Hpw & Hr1).
  exists pw. fold r in Hr1. rewrite Hr1. split; [done |]. simpl snd.
  destruct (retrieve_present
              (mkWorld (coll w)
                 (pending w ++ [mkRotation un (generateRandomPassword (rnd e1))
                                  (now e1 + rotation_delay)]))
              un m bd e2 Hwf Hp Hf2) as (pw' & Hpw' & Hr2).
  simpl coll in Hpw'. assert (pw' = pw) as -> by congruence.
  fold r in Hr2. by rewrite Hr2.
Qed.

Lemma retrieve_twice_same_witness :
  ∃ pw, fst (retrieveCredential Sample.vault (Sample.get "alice")
               (Sample.env 100 0 3)) = retrieved "alice" pw 100 ∧
    fst (retrieveCredential
           (snd (retrieveCredential Sample.vault (Sample.get "alice")
                   (Sample.env 100 0 3)))
           (Sample.get "alice") (Sample.env 1000 0 5))
    = retrieved "alice" pw 1000.
Proof.
  apply (retrieve_twice_same Sample.vault "alice" "GET" None
           (Sample.env 100 0 3) (Sample.env 1000 0 5));
    reflexivity.
Defined.

Lemma stored_last_rotated_rotate c g e :
  fault e = None → present c (rot_un g) = true →
  stored_last_rotated (snd (rotate c g e)) (rot_un g) = Some (now e).
Proof.
  intros Hf Hp. apply present_true, FindOne_present in Hp as [d Hd].
  unfold stored_last_rotated.
  by rewrite (FindOne_rotate _ _ _ _ Hf Hd), set_fields_last_rotated.
Qed.

(** X11. A retrieval, its rotation, and the next retrieval: once the
    goroutine has woken (ten seconds or more after the first
    retrieval, the driver not failing), the record carries the
    password that was generated during the first retrieval and the
    waking time as [last_rotated], and the next retrieval answers with
    that password. *)
Theorem rotation_then_retrieve w un m bd e1 e2 e3 :
  wf_coll (coll w) = true → present (coll w) un = true →
  fault e1 = None → fault e2 = None → fault e3 = None →
  (now e1 + rotation_delay ≤ now e2)%Z →
  let r := mkRequest m ("/retrieve/" +:+ un) bd in
  let g := mkRotation un (generateRandomPassword (rnd e1))
             (now e1 + rotation_delay) in
  ∃ pw w',
    run w [Retrieve r e1; Wake (List.length (pending w)) e2; Retrieve r e3]
    = Some (w', [Responded (retrieved un pw (now e1));
                 Rotated g (Ok 1);
                 Responded (retrieved un (generateRandomPassword (rnd e1))
                              (now e3))]) ∧
    stored_last_rotated (coll w') un = Some (now e2).
Proof.
  intros Hwf Hp Hf1 Hf2 Hf3 Ht r g.
  destruct (read_present _ _ Hwf Hp) as (d & cred & _ & _ & _ & Hpw).
  exists (Password cred). eexists. split.
  - eapply run_cons; [by apply step_retrieve_present |].
    eapply run_cons.
    { rewrite (step_wake _ (List.length (pending w)) g e2);
        [| by apply list_lookup_middle | done | done].
      simpl coll. simpl rot_un. by rewrite Hp. }
    eapply run_cons; [| done].
    apply step_retrieve_present; simpl coll; [ | | done | ].
    + by apply wf_coll_rotate.
    + by rewrite present_rotate.
    + by apply (stored_password_rotate_same (coll w) g e2).
  - simpl coll. by apply (stored_last_rotated_rotate (coll w) g e2).
Qed.

Lemma rotation_then_retrieve_witness :
  ∃ pw w',
    run Sample.vault
      [Retrieve (Sample.get "alice") (Sample.env 100 0 3);
       Wake 0 (Sample.env 10100 0 0);
       Retrieve (Sample.get "alice") (Sample.env 10200 0 4)]
    = Some (w', [Responded (retrieved "alice" pw 100);
                 Rotated Sample.g1 (Ok 1);
                 Responded (retrieved "alice" (rot_npw Sample.g1) 10200)]) ∧
    stored_last_rotated (coll w') "alice" = Some 10100%Z.
Proof.
  apply (rotation_then_retrieve Sample.vault "alice" "GET" None
           (Sample.env 100 0 3) (Sample.env 10100 0 0) (Sample.env 10200 0 4));
    first [reflexivity | vm_compute; discriminate].
Defined.

(** X12. A rotation whose update fails in the driver is not tried
    again: the goroutine ends, it is no longer among the sleepers, and
    the collection is as it was. *)
Theorem failed_rotation_dropped w i g e msg :
  pending w !! i = Some g → (rot_wake g ≤ now e)%Z → fault e = Some msg →
  step w (Wake i e)
  = Some (mkWorld (coll w) (delete i (pending w)),
          Rotated g (Err (ErrTransport msg))).
Proof.
  intros Hi Ht Hf. unfold step. rewrite Hi.
  apply Z.leb_le in Ht. rewrite Ht.
  by rewrite (rotate_fault _ _ _ _ Hf).
Qed.

Lemma failed_rotation_dropped_witness :
  step (mkWorld (coll Sample.vault) [Sample.g1])
       (Wake 0 (Sample2.faulty 10100 "timeout"))
  = Some (mkWorld (coll Sample.vault) [],
          Rotated Sample.g1 (Err (ErrTransport "timeout"))).
Proof.
  apply (failed_rotation_dropped (mkWorld (coll Sample.vault) [Sample.g1])
           0 Sample.g1 (Sample2.faulty 10100 "timeout") "timeout");
    [reflexivity | vm_compute; discriminate | reflexivity].
Defined.

(** X13. The rotation a retrieval starts cannot be applied during the
    ten seconds that follow the retrieval. *)
Theorem no_rotation_before_delay w r e resp w' e' :
  retrieveCredential w r e = (resp, w') → status resp = StatusOK →
  (now e' < now e + rotation_delay)%Z →
  step w' (Wake (List.length (pending w)) e') = None.
Proof.
  intros Hr Hs Ht. rewrite (retrieve_success _ _ _ _ _ Hr Hs).
  unfold step. simpl pending.
  rewrite list_lookup_middle by done. simpl rot_wake.
  apply Z.leb_gt in Ht. by rewrite Ht.
Qed.

Lemma no_rotation_before_delay_witness :
  step (snd (retrieveCredential Sample.vault (Sample.get "alice")
               (Sample.env 100 0 3)))
       (Wake 0 (Sample.env 10099 0 0)) = None.
Proof.
  apply (no_rotation_before_delay Sample.vault (Sample.get "alice")
           (Sample.env 100 0 3)
           (fst (retrieveCredential Sample.vault (Sample.get "alice")
                   (Sample.env 100 0 3))));
    reflexivity.
Defined.

End Sequences.

(** ** What every execution keeps *)

Section Executions.

Implicit Types (c : collection) (w : World) (un : string) (e : Env)
  (g : Rotation).

Lemma present_app c c' un : present (c ++ c') un = present c un || present c' un.
Proof. unfold present. apply existsb_app. Qed.

Lemma create_keeps_present c r e un :
  present c un = true → present (snd (createCredential c r e)) un = true.
Proof.
  intros Hp. destruct (createCredential c r e) as [resp c'] eqn:Hc. simpl.
  destruct (Z.eq_dec (status resp) StatusCreated) as [Hs | Hs].
  - destruct (create_success _ _ _ _ _ Hc Hs) as (b & _ & _ & _ & _ & ->).
    by rewrite present_app, Hp.
  - by rewrite (create_not_created _ _ _ _ _ Hc Hs).
Qed.

Lemma retrieve_success_present w r e resp w' :
  retrieveCredential w r e = (resp, w') → status resp = StatusOK →
  present (coll w) (TrimPrefix (Path r) "/retrieve/") = true.
Proof.
  unfold retrieveCredential, retrieve_respond.
  destruct (String.eqb _ ""); [by intros [= <- <-] |].
  destruct (FindOne _ _ (fault e)) as [d | []] eqn:Hf;
    try by intros [= <- <-].
  intros _ _. unfold FindOne in Hf. destruct (fault e); [done |].
  destruct (List.find _ (coll w)) as [d'|] eqn:Hfind; [| done].
  unfold present. rewrite existsb_find, Hfind. done.
Qed.

Lemma retrieve_not_ok w r e resp w' :
  retrieveCredential w r e = (resp, w') → status resp ≠ StatusOK → w' = w.
Proof.
  unfold retrieveCredential, retrieve_respond.
  destruct (String.eqb _ ""); [by intros [= <- <-] |].
  destruct (FindOne _ _ _) as [d | []]; try by intros [= <- <-].
  destruct (decode d); by intros [= <- <-].
Qed.

Lemma pending_ok_step w ev w' o :
  pending_ok w = true → step w ev = Some (w', o) →
  pending_ok w' = true ∧ missed o = false.
Proof.
  unfold pending_ok. intros Hok.
  destruct ev as [r e | r e | i e |]; simpl.
  - pose proof (create_keeps_present (coll w) r e) as Hkeep.
    destruct (createCredential (coll w) r e) as [resp c'].
    intros [= <- <-]. split; [| done]. simpl in *.
    rewrite forallb_forall in *. intros g Hg. apply Hkeep. by apply Hok.
  - destruct (retrieveCredential w r e) as [resp w1] eqn:Hr.
    intros [= <- <-]. split; [| done].
    destruct (Z.eq_dec (status resp) StatusOK) as [Hs | Hs].
    + rewrite (retrieve_success _ _ _ _ _ Hr Hs). simpl.
      rewrite forallb_app, Hok. simpl.
      by rewrite (retrieve_success_present _ _ _ _ _ Hr Hs).
    + by rewrite (retrieve_not_ok _ _ _ _ _ Hr Hs).
  - destruct (pending w !! i) as [g|] eqn:Hi; [| done].
    destruct (rot_wake g <=? now e)%Z; [| done].
    assert (present (coll w) (rot_un g) = true) as Hg.
    { rewrite forallb_forall in Hok. apply Hok.
      apply list_elem_of_In. by apply (list_elem_of_lookup_2 _ i). }
    pose proof (present_rotate (coll w) g e) as Hpres.
    unfold rotate, UpdateOne in *. unfold present in Hg.
    destruct (fault e); intros [= <- <-]; simpl in *.
    + split; [| done]. rewrite forallb_forall in *. intros g' Hg'.
      apply Hok. apply list_elem_of_In. apply list_elem_of_In in Hg'.
      by apply list_elem_of_delete_inv in Hg'.
    + rewrite Hg. split; [| done]. rewrite forallb_forall in *.
      intros g' Hg'. rewrite Hpres. apply Hok.
      apply list_elem_of_In. apply list_elem_of_In in Hg'.
      by apply list_elem_of_delete_inv in Hg'.
  - by intros [= <- <-].
Qed.

Lemma pending_ok_run evs : ∀ w w' os,
  pending_ok w = true → run w evs = Some (w', os) →
  pending_ok w' = true ∧ existsb missed os = false.
Proof.
  induction evs as [|ev evs IH]; intros w w' os Hok; simpl.
  - by intros [= <- <-].
  - destruct (step w ev) as [[w1 o]|] eqn:Hs; [| done].
    destruct (run w1 evs) as [[w2 os']|] eqn:Hr; [| done].
    intros [= <- <-].
    destruct (pending_ok_step _ _ _ _ Hok Hs) as [Hok1 Hmiss].
    destruct (IH _ _ _ Hok1 Hr) as [Hok2 Hmiss']. split; [done |].
    simpl. by rewrite Hmiss, Hmiss'.
Qed.

(** X14. Records are never removed and never renamed, so a rotation
    always finds the record it was started for: in every execution
    from the empty vault, each sleeping rotation is for a stored
    username, and no rotation ever runs its update against no record
    (its result is a driver failure or [MatchedCount] 1, never 0). *)
Theorem rotations_find_record evs w os :
  run init evs = Some (w, os) →
  pending_ok w = true ∧ existsb missed os = false.
Proof. intros Hr. by apply (pending_ok_run evs init w os). Qed.

Lemma rotations_find_record_witness :
  existsb missed
    [Responded (created "alice" "Init@123");
     Responded (retrieved "alice" "Init@123" 100);
     Responded (retrieved "alice" "Init@123" 1000);
     Rotated Sample.g1 (Ok 1); Rotated Sample.g2 (Ok 1)] = false.
Proof.
  apply (rotations_find_record Sample.race
           (mkWorld [set_fields (rot_npw Sample.g2) 11000
                       (set_fields (rot_npw Sample.g1) 10100
                          Sample.alice_doc)] [])).
  vm_compute. reflexivity.
Defined.

End Executions.

(** ** The unique index, from [main] on *)

Section UniqueIndex.

Implicit Types (c : collection) (w : World) (un : string) (e : Env)
  (d : document).

(** X15. [main] serves only after the unique index on [username] has
    been built, which needs a collection without two documents of one
    username.  From then on, in every execution, no two stored
    documents share a username, and the document [FindOne] returns for
    a username is the only stored document that has it. *)
Theorem unique_index_holds c b w evs w' os :
  main_startup c b = Some w → run w evs = Some (w', os) →
  w = mkWorld c [] ∧
  NoDup (usernames (coll w')) ∧
  ∀ d un, d ∈ coll w' → d !! "username" = Some (BString un) →
          FindOne (coll w') un None = Ok d.
Proof.
  unfold main_startup, CreateUniqueIndex.
  destruct (connect_fault b); [done |]. destruct (ping_fault b); [done |].
  destruct (index_fault b); [done |].
  destruct (bool_decide (NoDup (usernames c))) eqn:Hnd; [| done].
  apply bool_decide_eq_true in Hnd. intros [= <-] Hr.
  assert (NoDup (usernames (coll w'))) as Hnd'
    by (by apply (unique_usernames_run evs (mkWorld c []) w' os)).
  repeat split; [exact Hnd' |].
  intros d un Hin Hu. by apply FindOne_unique.
Qed.

Lemma unique_index_holds_witness :
  main_startup Sample2.two Sample2.boot_ok = Some (mkWorld Sample2.two []) ∧
  NoDup (usernames
           (snd (createCredential Sample2.two (Sample.create "carol" "Car@l789")
                   (Sample.env 9 3 0)))).
Proof.
  split; [vm_compute; reflexivity |].
  apply (unique_index_holds Sample2.two Sample2.boot_ok
           (mkWorld Sample2.two [])
           [Create (Sample.create "carol" "Car@l789") (Sample.env 9 3 0)]
           (mkWorld (snd (createCredential Sample2.two
                            (Sample.create "carol" "Car@l789")
                            (Sample.env 9 3 0))) [])
           [Responded (created "carol" "Car@l789")]);
    vm_compute; reflexivity.
Defined.

(** X16. In every state reached from the empty vault, each stored
    document is a well-formed credential, so a retrieval whose read
    does not fail in the driver never answers 500: its answer is 200,
    400 or 404. *)
Theorem retrieve_never_500 evs w os r e :
  run init evs = Some (w, os) → fault e = None →
  wf_coll (coll w) = true ∧
  (status (fst (retrieveCredential w r e)) = StatusOK ∨
   status (fst (retrieveCredential w r e)) = StatusBadRequest ∨
   status (fst (retrieveCredential w r e)) = StatusNotFound).
Proof.
  intros Hr Hf.
  assert (wf_coll (coll w) = true) as Hwf
    by (by apply (wf_coll_run evs init w os)).
  split; [exact Hwf |].
  unfold retrieveCredential, retrieve_respond.
  destruct (String.eqb _ ""); [auto |].
  rewrite Hf. destruct (FindOne _ _ None) as [d | err] eqn:Hfind.
  - destruct (FindOne_ok _ _ _ Hfind) as [Hin _].
    rewrite wf_coll_forall in Hwf.
    destruct (wf_doc_decode d (Hwf d Hin)) as (i & u & p & t & _ & _ & _ & ->).
    auto.
  - unfold FindOne in Hfind. destruct (List.find _ _); [done |].
    injection Hfind as <-. auto.
Qed.

Lemma retrieve_never_500_witness :
  status (fst (retrieveCredential
                 (mkWorld [Sample.alice_doc] [Sample.g1])
                 (Sample.get "bob") (Sample.env 200 0 0))) = StatusOK ∨
  status (fst (retrieveCredential
                 (mkWorld [Sample.alice_doc] [Sample.g1])
                 (Sample.get "bob") (Sample.env 200 0 0))) = StatusBadRequest ∨
  status (fst (retrieveCredential
                 (mkWorld [Sample.alice_doc] [Sample.g1])
                 (Sample.get "bob") (Sample.env 200 0 0))) = StatusNotFound.
Proof.
  apply (retrieve_never_500 (take 2 Sample.race)
           (mkWorld [Sample.alice_doc] [Sample.g1])
           [Responded (created "alice" "Init@123");
            Responded (retrieved "alice" "Init@123" 100)]);
    vm_compute; reflexivity.
Defined.

End UniqueIndex.

(** ** Records stay, and keep their identity *)

Section Immutable.

Implicit Types (c : collection) (w : World) (e : Env) (d : document).

Lemma step_keeps_identity w ev w' o i d :
  step w ev = Some (w', o) → coll w !! i = Some d →
  ∃ d', coll w' !! i = Some d' ∧
    d' !! "username" = d !! "username" ∧ d' !! "_id" = d !! "_id".
Proof.
  intros Hs Hi. destruct ev as [r e | r e | k e |]; simpl in Hs.
  - destruct (createCredential (coll w) r e) as [resp c'] eqn:Hc.
    injection Hs as <- _. simpl. exists d. split; [| done].
    destruct (Z.eq_dec (status resp) StatusCreated) as [H201 | H201].
    + destruct (create_success _ _ _ _ _ Hc H201) as (b & _ & _ & _ & _ & ->).
      rewrite lookup_app_l; [done |]. by apply (lookup_lt_Some _ _ d).
    + by rewrite (create_not_created _ _ _ _ _ Hc H201).
  - pose proof (retrieve_coll w r e) as H.
    destruct (retrieveCredential w r e). injection Hs as <- _.
    simpl in H. rewrite H. by exists d.
  - destruct (pending w !! k) as [g|]; [| done].
    destruct (rot_wake g <=? now e)%Z; [| done].
    destruct (rotate_lookup (coll w) g e i d Hi) as (d' & Hd' & Hframe).
    destruct (rotate (coll w) g e). injection Hs as <- _.
    exists d'. split; [done |]. split; by apply Hframe.
  - injection Hs as <- _. by exists d.
Qed.

(** X17. No execution removes a record or changes its identity: a
    document stored at some position is still stored at that position
    after any sequence of requests, rotations and restarts, with the
    same [username] and the same [_id]. *)
Theorem records_keep_identity evs : ∀ w w' os i d,
  run w evs = Some (w', os) → coll w !! i = Some d →
  ∃ d', coll w' !! i = Some d' ∧
    d' !! "username" = d !! "username" ∧ d' !! "_id" = d !! "_id".
Proof.
  induction evs as [|ev evs IH]; intros w w' os i d; simpl.
  - intros [= <- <-] Hi. by exists d.
  - destruct (step w ev) as [[w1 o]|] eqn:Hs; [| done].
    destruct (run w1 evs) as [[w2 os']|] eqn:Hr; [| done].
    intros [= <- <-] Hi.
    destruct (step_keeps_identity _ _ _ _ _ _ Hs Hi) as (d1 & Hd1 & Hu1 & Hi1).
    destruct (IH _ _ _ _ _ Hr Hd1) as (d2 & Hd2 & Hu2 & Hi2).
    exists d2. split; [done |]. split; congruence.
Qed.

Lemma records_keep_identity_witness :
  ∃ d', [set_fields (rot_npw Sample.g2) 11000
           (set_fields (rot_npw Sample.g1) 10100 Sample.alice_doc)]
          !! 0%nat = Some d' ∧
    d' !! "username" = Sample.alice_doc !! "username" ∧
    d' !! "_id" = Sample.alice_doc !! "_id".
Proof.
  apply (records_keep_identity
           [Retrieve (Sample.get "alice") (Sample.env 100 0 3);
            Retrieve (Sample.get "alice") (Sample.env 1000 0 5);
            Wake 0 (Sample.env 10100 0 0);
            Wake 0 (Sample.env 11000 0 0)]
           Sample.vault
           (mkWorld [set_fields (rot_npw Sample.g2) 11000
                       (set_fields (rot_npw Sample.g1) 10100
                          Sample.alice_doc)] [])
           [Responded (retrieved "alice" "Init@123" 100);
            Responded (retrieved "alice" "Init@123" 1000);
            Rotated Sample.g1 (Ok 1); Rotated Sample.g2 (Ok 1)]
           0%nat Sample.alice_doc);
    vm_compute; reflexivity.
Defined.

Lemma update_first_one {A} (p : A → bool) (f : A → A) (l : list A) :
  ∃ i, ∀ j, j ≠ i → update_first p f l !! j = l !! j.
Proof.
  induction l as [|x l [i IH]]; simpl; [by exists 0%nat |].
  destruct (p x).
  - exists 0%nat. intros [|j] Hj; [done | done].
  - exists (S i). intros [|j] Hj; [done |]. simpl. apply IH. lia.
Qed.

(** X18. A rotation rewrites at most one document, also when several
    documents carry its username: every position but one holds the
    document it held before. *)
Theorem rotation_touches_one c (g : Rotation) e :
  ∃ i, ∀ j, j ≠ i → snd (rotate c g e) !! j = c !! j.
Proof.
  unfold rotate, UpdateOne. destruct (fault e); simpl.
  - by exists 0%nat.
  - apply update_first_one.
Qed.

Lemma rotation_touches_one_witness :
  ∃ i, ∀ j, j ≠ i →
    snd (rotate Sample2.two Sample.g1 (Sample.env 10100 0 0)) !! j
    = Sample2.two !! j.
Proof.
  apply (rotation_touches_one Sample2.two Sample.g1 (Sample.env 10100 0 0)).
Defined.

(** X19. A rotation for one username leaves the records of all other
    usernames as they are: what [FindOne] returns for any other
    username is the same document before and after. *)
Theorem rotation_spares_others c (g : Rotation) e un :
  un ≠ rot_un g →
  FindOne (snd (rotate c g e)) un None = FindOne c un None.
Proof.
  intros Hne. unfold rotate, UpdateOne. destruct (fault e); [done |].
  simpl. unfold FindOne.
  rewrite find_update_first_other; [done | |].
  - intros; apply matches_set_fields.
  - intros x Hx. by apply (matches_other (rot_un g)).
Qed.

Lemma rotation_spares_others_witness :
  FindOne (snd (rotate Sample2.two Sample.g1 (Sample.env 10100 0 0)))
    "bob" None = Ok Sample2.bob_doc.
Proof.
  apply (rotation_spares_others Sample2.two Sample.g1
           (Sample.env 10100 0 0) "bob"). discriminate.
Defined.

End Immutable.
